(** * Vault Guardian: the backup orchestration of [src/main.ts]

    A shallow embedding of the scheduler ([BackupScheduler]), the archive
    builder ([addFolderToZip]), the retention pass ([cleanOldBackups]) and
    the orchestrator ([createBackup]) of the plugin, with the properties the
    specification states about them.

    Conventions of the embedding.
    - A JavaScript string is a [string]: each character is one code unit
      below 256.  [Buffer.from(s)] is the UTF-8 encoding of such a string.
    - JavaScript numbers that hold integers (timestamps in milliseconds,
      keep-counts) are [Z]; the interval in hours, which the settings panel
      fills with fractions such as 0.5, is a [Q], and so is everything
      computed from it.  Rounding of binary64 arithmetic is not modelled.
    - The host (Obsidian, node's [fs], adm-zip) is a record of outcomes
      ([host]); the plugin is a record of the state the code mutates
      ([plugin]).  A call that can throw returns a [result]. *)

From Stdlib Require Import Ascii String ZArith QArith Qround Lia Lqa Sorted.
From stdpp Require Import gmap strings list fin_maps.

Local Open Scope string_scope.
Local Open Scope list_scope.
Local Open Scope Z_scope.
Set Warnings "-register-all".

(** ** JavaScript strings *)

Module JsString.

(** White space of [String.prototype.trim] among the code units below 256:
    TAB, LF, VT, FF, CR, SP and NBSP. *)
Definition isWhiteSpace (c : ascii) : bool :=
  let n := N_of_ascii c in
  ((9 <=? n) && (n <=? 13) || (n =? 32) || (n =? 160))%N.

Fixpoint trimStart (s : string) : string :=
  match s with
  | EmptyString => EmptyString
  | String c r => if isWhiteSpace c then trimStart r else s
  end.

Definition trimEnd (s : string) : string :=
  String.rev (trimStart (String.rev s)).

Definition trim (s : string) : string := trimEnd (trimStart s).

Definition isEmpty (s : string) : bool :=
  match s with EmptyString => true | String _ _ => false end.

(** [s.endsWith(suffix)] *)
Definition endsWith (s suffix : string) : bool :=
  String.prefix (String.rev suffix) (String.rev s).

(** [s.startsWith(p)] *)
Definition startsWith (s p : string) : bool := String.prefix p s.

End JsString.

(** ** node's [path] module, POSIX flavour

    [join] is only applied to a directory and the name of one of its
    entries, or to the vault root and a relative directory; on such
    arguments [path.join] glues them with one separator.  Normalisation of
    [..] segments and of repeated separators is not modelled. *)

Module Path.

Definition isAbsolute (p : string) : bool := JsString.startsWith p "/".

Definition join (a b : string) : string :=
  if JsString.isEmpty a then b
  else if JsString.isEmpty b then a
  else (a ++ "/" ++ b)%string.

End Path.

(** ** Settings *)

Record BackupPluginSettings : Type := mkSettings {
  backupPath : string;
  secondaryBackupPath : string;
  autoBackupInterval : Q;          (* hours *)
  lastBackupTime : Z;              (* ms since the epoch, 0 = never *)
  compressionLevel : Z;
  maxBackupCount : Z;
  secondaryMaxBackupCount : Z
}.

Definition DEFAULT_SETTINGS : BackupPluginSettings :=
  {| backupPath := "";
     secondaryBackupPath := "";
     autoBackupInterval := 24;
     lastBackupTime := 0;
     compressionLevel := 9;
     maxBackupCount := 5;
     secondaryMaxBackupCount := 10 |}.

Definition set_lastBackupTime (t : Z) (s : BackupPluginSettings) :=
  {| backupPath := backupPath s;
     secondaryBackupPath := secondaryBackupPath s;
     autoBackupInterval := autoBackupInterval s;
     lastBackupTime := t;
     compressionLevel := compressionLevel s;
     maxBackupCount := maxBackupCount s;
     secondaryMaxBackupCount := secondaryMaxBackupCount s |}.

(** [!p || p.trim() === ''] *)
Definition isBlank (p : string) : bool :=
  JsString.isEmpty p || JsString.isEmpty (JsString.trim p).

(** [p && p.trim() !== ''] *)
Definition isConfigured (p : string) : bool :=
  negb (JsString.isEmpty p) && negb (JsString.isEmpty (JsString.trim p)).

(** ** What the plugin reports *)

(** What a rejected promise or a thrown exception carries. *)
Inductive error : Type :=
| VaultReadError (path : string)          (* vault.read(file) *)
| ReaddirError                            (* fs.readdir(folderPath) *)
| MkdirError (dir : string)               (* fs.mkdir, code other than EEXIST *)
| WriteZipError (dir name : string)       (* zip.writeZip(backupPath) *)
| SaveDataError                           (* this.saveData(this.settings) *)
| NotAFunction.                           (* adapter.backupPath is undefined *)

(** The texts shown to the user, through [new Notice], [setMessage] and
    [hide]. *)
Inductive notice : Type :=
| NoPrimaryBackupPath                     (* 'No primary backup path set.' *)
| StartingBackup                          (* 'Starting Backup' *)
| AddingFiles (processedFiles totalFiles : nat)   (* 'Adding files: n%' *)
| VerifyingBackup                         (* 'Verifying Backup' *)
| PartialObsidianFolder                   (* 'Partial .obsidian folder added' *)
| SecondaryFolderMissing                  (* 'Secondary backup folder does not exist' *)
| BackupCreated                           (* 'Backup Created' *)
| BackupFailed (e : error)                (* 'Backup failed: ' + error.message *)
| Hidden.                                 (* progressNotice.hide() *)

(** The lines written with [console.log], [console.warn], [console.error]. *)
Inductive console_line : Type :=
| NextBackupScheduled (t : Q)
| BackupRescheduled (t : Q)
| DeletedOldBackup (name : string)
| FailedToDeleteBackup (name : string)
| ErrorCleaningOldBackups (dir : string)
| ErrorReadingFile (zipPath : string)
| SkippingProblematicPath
| ErrorAccessingFolder
| ErrorAddingObsidianFolder (e : error)
| ErrorCreatingSecondaryBackup
| BackupError (e : error).

Inductive result (A : Type) : Type :=
| Ok (a : A)
| Throw (e : error).
Arguments Ok {A} a.
Arguments Throw {A} e.

(** ** The archive under construction *)

(** An adm-zip object is the list of the entries added so far, oldest
    first: the name and the data of each. *)
Definition Buffer : Type := list Byte.byte.
Definition ZipEntry : Type := (string * Buffer)%type.
Definition AdmZip : Type := list ZipEntry.

Definition addFile (entryName : string) (content : Buffer) (zip : AdmZip) : AdmZip :=
  zip ++ [(entryName, content)].

(** [Buffer.from(s)]: the UTF-8 bytes of [s]. *)
Definition utf8_of_unit (c : ascii) : Buffer :=
  let n := N_of_ascii c in
  if (n <? 128)%N then [byte_of_ascii c]
  else [byte_of_ascii (ascii_of_N (192 + n / 64));
        byte_of_ascii (ascii_of_N (128 + n mod 64))].

Fixpoint Buffer_from (s : string) : Buffer :=
  match s with
  | EmptyString => []
  | String c r => utf8_of_unit c ++ Buffer_from r
  end.

(** ** The metadata tree

    What [lstat] finds at a path of the [.obsidian] folder, with the outcome
    of the calls the traversal may make on it; [None] is a call that
    rejects.  A directory lists its entries in [readdir] order, each with
    the outcome of its own [lstat]. *)
Inductive node : Type :=
| SymbolicLink (readlink : option string) (referent : option node)
| Directory (readdir : option (list (string * option node)))
| RegularFile (readFile : option Buffer) (readFileUtf8 : option string)
| Special.                                (* socket, FIFO, device *)

Definition listing : Type := list (string * option node).

(** ** The host *)

Inductive mkdir_outcome : Type :=
| Created
| EEXIST
| MkdirFails.

Record host : Type := mkHost {
  getBasePath : string;                       (* vault.adapter.getBasePath() *)
  getName : string;                           (* vault.getName() *)
  getFiles : list (string * option string);   (* vault.getFiles(), with what vault.read gives *)
  obsidianFolder : option listing;            (* readdir of <vault>/.obsidian *)
  toISOString : Z -> string;                  (* new Date(t).toISOString() *)
  mkdir : string -> mkdir_outcome;            (* fs.mkdir(path, {recursive: true}) *)
  writeZip_ok : string -> string -> bool;     (* directory, file name *)
  copyFile_ok : string -> string -> bool;     (* destination directory, file name *)
  saveData_ok : bool;
  stat_ok : string -> string -> bool;
  unlink_ok : string -> string -> bool;
  adapter_backupPath : option string          (* vault.adapter.backupPath(), if there is one *)
}.

(** ** The state the code reads and writes

    [disk] holds the directories the backups go to: for each directory path
    the names of its entries with their modification times.  A path that is
    not in [disk] cannot be listed.  [fs_trace] records every call that
    changed the disk, with the archive that [writeZip] wrote. *)
Inductive fs_event : Type :=
| MadeDir (dir : string)
| WroteZip (dir name : string) (zip : AdmZip)
| CopiedFile (dir name : string)
| Unlinked (dir name : string).

Record plugin : Type := mkPlugin {
  settings : BackupPluginSettings;
  isBackupInProgress : bool;
  nextBackupTime : Q;                         (* BackupScheduler.nextBackupTime *)
  Date_now : Z;                               (* the clock *)
  disk : gmap string (gmap string Z);
  fs_trace : list fs_event;                   (* oldest first *)
  data_json : option BackupPluginSettings;    (* what saveData stored last *)
  notices : list notice;                      (* oldest first *)
  console : list console_line                 (* oldest first *)
}.

Definition set_settings (x : BackupPluginSettings) (p : plugin) : plugin :=
  mkPlugin x (isBackupInProgress p) (nextBackupTime p) (Date_now p) (disk p)
           (fs_trace p) (data_json p) (notices p) (console p).
Definition set_isBackupInProgress (x : bool) (p : plugin) : plugin :=
  mkPlugin (settings p) x (nextBackupTime p) (Date_now p) (disk p)
           (fs_trace p) (data_json p) (notices p) (console p).
Definition set_nextBackupTime (x : Q) (p : plugin) : plugin :=
  mkPlugin (settings p) (isBackupInProgress p) x (Date_now p) (disk p)
           (fs_trace p) (data_json p) (notices p) (console p).
Definition set_Date_now (x : Z) (p : plugin) : plugin :=
  mkPlugin (settings p) (isBackupInProgress p) (nextBackupTime p) x (disk p)
           (fs_trace p) (data_json p) (notices p) (console p).
Definition set_disk (x : gmap string (gmap string Z)) (ev : fs_event)
    (p : plugin) : plugin :=
  mkPlugin (settings p) (isBackupInProgress p) (nextBackupTime p) (Date_now p) x
           (fs_trace p ++ [ev]) (data_json p) (notices p) (console p).
Definition set_data_json (x : option BackupPluginSettings) (p : plugin) : plugin :=
  mkPlugin (settings p) (isBackupInProgress p) (nextBackupTime p) (Date_now p) (disk p)
           (fs_trace p) x (notices p) (console p).
Definition show (n : notice) (p : plugin) : plugin :=
  mkPlugin (settings p) (isBackupInProgress p) (nextBackupTime p) (Date_now p) (disk p)
           (fs_trace p) (data_json p) (notices p ++ [n]) (console p).
Definition print (ls : list console_line) (p : plugin) : plugin :=
  mkPlugin (settings p) (isBackupInProgress p) (nextBackupTime p) (Date_now p) (disk p)
           (fs_trace p) (data_json p) (notices p) (console p ++ ls).

(** [await new Promise(resolve => setTimeout(resolve, ms))] *)
Definition sleep (ms : Z) (p : plugin) : plugin :=
  set_Date_now (Date_now p + ms) p.

(** ** A state and exception monad for the body of [createBackup] *)

Definition M (A : Type) : Type := plugin -> result A * plugin.

Definition ret {A} (a : A) : M A := fun p => (Ok a, p).
Definition throw {A} (e : error) : M A := fun p => (Throw e, p).
Definition bind {A B} (m : M A) (k : A -> M B) : M B :=
  fun p => match m p with
           | (Ok a, p') => k a p'
           | (Throw e, p') => (Throw e, p')
           end.
Definition lift (f : plugin -> plugin) : M unit := fun p => (Ok tt, f p).
Definition get {A} (f : plugin -> A) : M A := fun p => (Ok (f p), p).
Definition try_catch {A} (m : M A) (handler : error -> M A) : M A :=
  fun p => match m p with
           | (Ok a, p') => (Ok a, p')
           | (Throw e, p') => handler e p'
           end.
Definition try_finally {A} (m : M A) (cleanup : plugin -> plugin) : M A :=
  fun p => let '(r, p') := m p in (r, cleanup p').

Declare Scope js_scope.
Delimit Scope js_scope with js.
Notation "'let*' x ':=' m 'in' k" := (bind m (fun x => k))
  (at level 10, x name, m at level 100, k at level 200) : js_scope.
Notation "'run' m 'then' k" := (bind m (fun _ => k))
  (at level 10, m at level 100, k at level 200) : js_scope.

(** ** The scheduler *)

Definition intervalMs (s : BackupPluginSettings) : Q :=
  (autoBackupInterval s * 60 * 60 * 1000)%Q.

(** [scheduleNextBackup].  The call is synchronous: its reads of
    [Date.now()] give one value.  The text of the status bar, which the
    call refreshes last, is not part of the state. *)
Definition scheduleNextBackup (p : plugin) : plugin :=
  let lastBackupTime :=
    if lastBackupTime (settings p) =? 0 then Date_now p
    else lastBackupTime (settings p) in
  let intervalMs := intervalMs (settings p) in
  let next := (inject_Z lastBackupTime + intervalMs)%Q in
  let next :=
    if Qle_bool next (inject_Z (Date_now p))
    then (inject_Z (Date_now p) + intervalMs)%Q
    else next in
  print [NextBackupScheduled next] (set_nextBackupTime next p).


(** [isBackingUp] *)
Definition isBackingUp (p : plugin) : bool := isBackupInProgress p.

(** ** The backup directories on disk *)

(** [fs.readdir(dir)]: the names, in the order the directory yields them. *)
Definition readdir (p : plugin) (dir : string) : option (list string) :=
  (fun d : gmap string Z => (map_to_list d).*1) <$> disk p !! dir.

(** [fs.stat(path.join(dir, name))], reduced to [mtime.getTime()]. *)
Definition stat_mtime (h : host) (p : plugin) (dir name : string) : option Z :=
  if stat_ok h dir name then d ← disk p !! dir; d !! name else None.

(** [fs.unlink(path.join(dir, name))] *)
Definition unlink (h : host) (dir name : string) (p : plugin) : option plugin :=
  if unlink_ok h dir name then
    d ← disk p !! dir;
    _ ← d !! name;
    Some (set_disk (<[dir := delete name d]> (disk p)) (Unlinked dir name) p)
  else None.

(** A file appears, or is replaced, in a directory; its modification time
    is the time of the call. *)
Definition put_file (dir name : string) (ev : fs_event) (p : plugin) : plugin :=
  set_disk (<[dir := <[name := Date_now p]> (default ∅ (disk p !! dir))]> (disk p)) ev p.

(** ** Retention *)

Record BackupFile : Type := mkBackupFile {
  name : string;
  path : string * string;                     (* directory and name *)
  time : Z
}.

(** [(a, b) => b.time - a.time] *)
Definition by_time (a b : BackupFile) : Z := time b - time a.

(** [Array.prototype.sort(compare)], which is stable: an insertion sort. *)
Fixpoint sort_insert {A} (compare : A -> A -> Z) (x : A) (l : list A) : list A :=
  match l with
  | [] => [x]
  | y :: r => if 0 <? compare x y then y :: sort_insert compare x r
              else x :: y :: r
  end.

Fixpoint sort {A} (compare : A -> A -> Z) (l : list A) : list A :=
  match l with
  | [] => []
  | x :: r => sort_insert compare x (sort compare r)
  end.

(** [Array.prototype.slice(start)] *)
Definition slice {A} (start : Z) (l : list A) : list A :=
  let len := Z.of_nat (length l) in
  let k := if start <? 0 then Z.max (len + start) 0 else Z.min start len in
  drop (Z.to_nat k) l.

Definition isZip (f : string) : Prop := JsString.endsWith f ".zip" = true.

#[global] Instance isZip_dec f : Decision (isZip f).
Proof. unfold isZip. apply _. Defined.

(** The loop over [filesToDelete]: a file that cannot be deleted is
    reported and the loop goes on. *)
Definition deleteOne (h : host) (p : plugin) (file : BackupFile) : plugin :=
  match unlink h (path file).1 (path file).2 p with
  | Some p' => print [DeletedOldBackup (name file)] p'
  | None => print [FailedToDeleteBackup (name file)] p
  end.

(** [cleanDirectory], the helper of [cleanOldBackups].  [Promise.all]
    rejects as soon as one [stat] does, and the outer [catch] reports it. *)
Definition cleanDirectory (h : host) (backupDir : string) (retentionCount : Z)
    (p : plugin) : plugin :=
  match readdir p backupDir with
  | None => print [ErrorCleaningOldBackups backupDir] p
  | Some files =>
      match mapM (fun filename =>
                    mkBackupFile filename (backupDir, filename)
                      <$> stat_mtime h p backupDir filename)
                 (filter isZip files) with
      | None => print [ErrorCleaningOldBackups backupDir] p
      | Some backupFiles =>
          let sortedBackupFiles := sort by_time backupFiles in
          let filesToDelete := slice retentionCount sortedBackupFiles in
          foldl (deleteOne h) p filesToDelete
      end
  end.

(** [cleanOldBackups] *)
Definition cleanOldBackups (h : host) : M unit :=
  fun p =>
  if maxBackupCount (settings p) <=? 0 then (Ok tt, p)
  else
    let primary :=
      if JsString.isEmpty (backupPath (settings p)) then adapter_backupPath h
      else Some (backupPath (settings p)) in
    match primary with
    | None => (Throw NotAFunction, p)
    | Some primaryBackupDir =>
        let p1 := cleanDirectory h primaryBackupDir (maxBackupCount (settings p)) p in
        if isConfigured (secondaryBackupPath (settings p1)) then
          (Ok tt, cleanDirectory h (secondaryBackupPath (settings p1))
                    (secondaryMaxBackupCount (settings p1)) p1)
        else (Ok tt, p1)
    end.

(** ** The archive builder *)

(** What the traversal of the metadata tree changes: the archive and the
    console. *)
Definition walk : Type := (AdmZip * list console_line)%type.

Definition zip_add (entryName : string) (content : Buffer) (w : walk) : walk :=
  (addFile entryName content w.1, w.2).
Definition tell (l : console_line) (w : walk) : walk := (w.1, w.2 ++ [l]).

(** One turn of the loop of [addFolderToZip], for an entry whose [lstat]
    gave [stats]; whatever is thrown inside is caught by the turn itself
    ([statError]), including what the recursive call throws when the
    sub-directory cannot be listed. *)
Fixpoint addEntryToZip (stats : node) (zipPath : string) (w : walk) : walk :=
  match stats with
  | SymbolicLink (Some linkTarget) _ => zip_add zipPath (Buffer_from linkTarget) w
  | SymbolicLink None _ => tell SkippingProblematicPath w
  | Directory rd =>
      let w := zip_add (zipPath ++ "/")%string [] w in
      match rd with
      | None => tell SkippingProblematicPath (tell ErrorAccessingFolder w)
      | Some files =>
          (fix each (files : listing) (w : walk) {struct files} : walk :=
             match files with
             | [] => w
             | (fname, lstat) :: rest =>
                 each rest
                   match lstat with
                   | None => tell SkippingProblematicPath w
                   | Some stats => addEntryToZip stats (Path.join zipPath fname) w
                   end
             end) files w
      end
  | RegularFile (Some content) _ => zip_add zipPath content w
  | RegularFile None (Some text) => zip_add zipPath (Buffer_from text) w
  | RegularFile None None => tell (ErrorReadingFile zipPath) w
  | Special => w
  end.

(** The [for] loop of [addFolderToZip]. *)
Fixpoint addEntriesToZip (files : listing) (zipBasePath : string) (w : walk) : walk :=
  match files with
  | [] => w
  | (fname, lstat) :: rest =>
      addEntriesToZip rest zipBasePath
        match lstat with
        | None => tell SkippingProblematicPath w
        | Some stats => addEntryToZip stats (Path.join zipBasePath fname) w
        end
  end.

(** [addFolderToZip(zip, folderPath, zipBasePath)]; [folder] is what
    [readdir(folderPath)] gives.  The second component is what the call
    throws, if it does. *)
Definition addFolderToZip (w : walk) (folder : option listing) (zipBasePath : string)
    : walk * option error :=
  match folder with
  | None => (tell ErrorAccessingFolder w, Some ReaddirError)
  | Some files => (addEntriesToZip files zipBasePath w, None)
  end.

(** The loop over [vaultFiles]. *)
Fixpoint addVaultFiles (files : list (string * option string))
    (totalFiles processedFiles : nat) (zip : AdmZip) : M AdmZip :=
  match files with
  | [] => ret zip
  | (file_path, read) :: rest =>
      match read with
      | None => throw (VaultReadError file_path)
      | Some content =>
          (run lift (show (AddingFiles (S processedFiles) totalFiles)) then
           addVaultFiles rest totalFiles (S processedFiles)
             (addFile file_path (Buffer_from content) zip))%js
      end
  end.

(** ** The orchestrator *)

(** [.replace(/[:.]/g, '-')] *)
Fixpoint replace_colon_dot (s : string) : string :=
  match s with
  | EmptyString => EmptyString
  | String c r =>
      String (if (Ascii.eqb c ":" || Ascii.eqb c ".")%bool then "-"%char else c)
             (replace_colon_dot r)
  end.

(** [.slice(0, -5)] *)
Definition slice_0_minus5 (s : string) : string :=
  String.substring 0 (String.length s - 5) s.

Definition zipName (h : host) (now : Z) : string :=
  (slice_0_minus5 (replace_colon_dot (toISOString h now)) ++ "_" ++ getName h ++ ".zip")%string.

(** [ensureBackupDir] *)
Definition ensureBackupDir (h : host) (dir : string) : M unit :=
  match mkdir h dir with
  | Created => lift (fun p => match disk p !! dir with
                              | Some _ => p
                              | None => set_disk (<[dir := ∅]> (disk p)) (MadeDir dir) p
                              end)
  | EEXIST => ret tt
  | MkdirFails => throw (MkdirError dir)
  end.

(** [getBackupPath(filename)]: the directory and the name in it. *)
Definition getBackupPath (h : host) (s : BackupPluginSettings) (filename : string)
    : string * string :=
  if JsString.isEmpty (backupPath s) then (getBasePath h, filename)
  else if Path.isAbsolute (backupPath s) then (backupPath s, filename)
  else (Path.join (getBasePath h) (backupPath s), filename).

(** [zip.writeZip(backupPath)] *)
Definition writeZip (h : host) (zip : AdmZip) (target : string * string) : M unit :=
  if writeZip_ok h target.1 target.2
  then lift (put_file target.1 target.2 (WroteZip target.1 target.2 zip))
  else throw (WriteZipError target.1 target.2).

(** The copy to the secondary location, with its own [catch]. *)
Definition copyToSecondary (h : host) (zipName : string) (p : plugin) : plugin :=
  let dir := secondaryBackupPath (settings p) in
  if isConfigured dir then
    if (copyFile_ok h dir zipName && bool_decide (is_Some (disk p !! dir)))%bool
    then put_file dir zipName (CopiedFile dir zipName) p
    else show SecondaryFolderMissing (print [ErrorCreatingSecondaryBackup] p)
  else p.

(** [saveSettings] *)
Definition saveSettings (h : host) : M unit :=
  if saveData_ok h then lift (fun p => set_data_json (Some (settings p)) p)
  else throw SaveDataError.

(** The body of the [try] of [createBackup] after the first
    [await setTimeout], in two parts.  First the archive is filled: the
    vault files, then the [.obsidian] folder, whose failure is caught on the
    spot. *)
Definition buildArchive (h : host) : M AdmZip :=
  (let* zip := addVaultFiles (getFiles h) (length (getFiles h)) 0 [] in
   run lift (show VerifyingBackup) then
   (fun p =>
      match addFolderToZip (zip, []) (obsidianFolder h) ".obsidian" with
      | (w, None) => (Ok w.1, print w.2 p)
      | (w, Some e) =>
          (Ok w.1,
           show PartialObsidianFolder
             (print (w.2 ++ [ErrorAddingObsidianFolder e]) p))
      end))%js.

(** Then it is named, written, copied, recorded, and old archives are
    pruned. *)
Definition storeArchive (h : host) (zip : AdmZip) : M unit :=
  (let* now := get Date_now in
   let zipName := zipName h now in
   let* s := get settings in
   run (if JsString.isEmpty (backupPath s) then ret tt
        else ensureBackupDir h
               (if Path.isAbsolute (backupPath s) then backupPath s
                else Path.join (getBasePath h) (backupPath s))) then
   let* s := get settings in
   let backupPath := getBackupPath h s zipName in
   run writeZip h zip backupPath then
   run lift (copyToSecondary h zipName) then
   run lift (fun p => set_settings (set_lastBackupTime (Date_now p) (settings p)) p) then
   run saveSettings h then
   run cleanOldBackups h then
   run lift (show BackupCreated) then
   run lift (sleep 2000) then
   lift (show Hidden))%js.

Definition backup (h : host) : M unit :=
  (let* zip := buildArchive h in storeArchive h zip)%js.

(** The [catch] of [createBackup]. *)
Definition backup_failed (e : error) : M unit :=
  (run lift (show (BackupFailed e)) then
   run lift (sleep 2000) then
   run lift (show Hidden) then
   lift (print [BackupError e]))%js.

(** [createBackup] runs up to its first [await] as soon as it is called:
    either it returns at the path check, or it raises the flag and waits. *)
Inductive entered : Type :=
| Returned (p : plugin)
| Waiting (p : plugin).

Definition createBackup_enter (p : plugin) : entered :=
  if isBlank (backupPath (settings p)) then Returned (show NoPrimaryBackupPath p)
  else Waiting (show StartingBackup (set_isBackupInProgress true p)).

(** The rest of the call, from the end of the two-second wait to the
    [finally]. *)
Definition createBackup_resume (h : host) (p : plugin) : plugin :=
  (try_finally (try_catch (backup h) backup_failed)
     (set_isBackupInProgress false) p).2.

(** [createBackup], when nothing else runs while it waits. *)
Definition createBackup (h : host) (p : plugin) : plugin :=
  match createBackup_enter p with
  | Returned p' => p'
  | Waiting p' => createBackup_resume h (sleep 2000 p')
  end.

(** ** The event loop

    Calls of [createBackup] that wait in their first [await] are kept with
    the time their timer fires and with what awaits them: the tick of the
    scheduler reschedules once its call is over, [forceBackupNow] has
    rescheduled already.  The later suspension points of a call are not
    interleaved with other events: once resumed it runs to its end. *)
Inductive caller : Type :=
| Tick
| BackupNow.

Record loop : Type := mkLoop {
  plug : plugin;
  in_flight : list (caller * Z)
}.

(** [checkAndRunBackup] *)
Definition checkAndRunBackup (l : loop) : loop :=
  let p := plug l in
  if (Qle_bool (nextBackupTime p) (inject_Z (Date_now p)) && negb (isBackingUp p))%bool
  then match createBackup_enter p with
       | Returned p' => mkLoop (scheduleNextBackup p') (in_flight l)
       | Waiting p' => mkLoop p' (in_flight l ++ [(Tick, Date_now p' + 2000)])
       end
  else l.

(** [forceBackupNow] *)
Definition forceBackupNow (l : loop) : loop :=
  match createBackup_enter (plug l) with
  | Returned p' => mkLoop (scheduleNextBackup p') (in_flight l)
  | Waiting p' =>
      mkLoop (scheduleNextBackup p') (in_flight l ++ [(BackupNow, Date_now p' + 2000)])
  end.

(** The [i]-th waiting call goes on, if its timer has fired. *)
Definition wake (h : host) (i : nat) (l : loop) : loop :=
  match in_flight l !! i with
  | Some (c, due) =>
      if due <=? Date_now (plug l) then
        let p' := createBackup_resume h (plug l) in
        mkLoop match c with
               | Tick => scheduleNextBackup p'
               | BackupNow => p'
               end
               (delete i (in_flight l))
      else l
  | None => l
  end.

Inductive event : Type :=
| TimerTick                                 (* the 30-second interval fires *)
| ClickBackupNow                            (* the button of the settings tab *)
| Wake (i : nat)
| Elapse (ms : Z).

Definition step (h : host) (l : loop) (e : event) : loop :=
  match e with
  | TimerTick => checkAndRunBackup l
  | ClickBackupNow => forceBackupNow l
  | Wake i => wake h i l
  | Elapse ms => mkLoop (sleep ms (plug l)) (in_flight l)
  end.

Definition steps (h : host) (l : loop) (es : list event) : loop :=
  foldl (step h) l es.


(** ** Vocabulary of the properties *)

(** The entries the traversal of [files], mapped under [base], comes to:
    those of [files] and, through directories that can be listed, those
    below them.  [visits files base zipPath stats]: the traversal meets an
    entry whose [lstat] gives [stats], mapped to [zipPath]. *)
Inductive visits : listing -> string -> string -> node -> Prop :=
| visits_entry (files : listing) (base fname : string) (stats : node) :
    (fname, Some stats) ∈ files ->
    visits files base (Path.join base fname) stats
| visits_inside (files sub : listing) (base fname zipPath : string) (stats : node) :
    (fname, Some (Directory (Some sub))) ∈ files ->
    visits sub (Path.join base fname) zipPath stats ->
    visits files base zipPath stats.



(** The entries a traversal adds to an empty archive. *)
Definition entries_of (files : listing) (base : string) : AdmZip :=
  (addEntriesToZip files base ([], [])).1.

(** The lines a traversal writes to an empty console. *)
Definition lines_of (files : listing) (base : string) : list console_line :=
  (addEntriesToZip files base ([], [])).2.

(** The entries the loop over the vault files adds. *)
Definition vault_entries (files : list (string * option string)) : AdmZip :=
  omap (fun f : string * option string =>
          (fun content => (f.1, Buffer_from content)) <$> f.2) files.

(** The progress messages of the loop over the vault files. *)
Fixpoint progress (files totalFiles processedFiles : nat) : list notice :=
  match files with
  | O => []
  | S n => AddingFiles (S processedFiles) totalFiles
           :: progress n totalFiles (S processedFiles)
  end.

(** The directory [createBackup] makes sure of and writes into. *)
Definition backupDir (h : host) (s : BackupPluginSettings) : string :=
  (getBackupPath h s "").1.

(** The archives of a directory, with their modification times; how many
    of them are newer than a given time; and the directory with only its
    [keepCount] most recent archives left (other files stay). *)
Definition archives (d : gmap string Z) : list (string * Z) :=
  filter (fun e : string * Z => isZip e.1) (map_to_list d).

Definition newer_archives (d : gmap string Z) (t : Z) : nat :=
  length (filter (fun e : string * Z => t < e.2) (archives d)).

Definition most_recent (keepCount : Z) (d : gmap string Z) : gmap string Z :=
  filter (fun e : string * Z =>
            isZip e.1 -> Z.of_nat (newer_archives d e.2) < keepCount) d.

(** What the retention pass leaves alone. *)
Record same_but_disk (p q : plugin) : Prop := {
  sbd_settings : settings q = settings p;
  sbd_flag : isBackupInProgress q = isBackupInProgress p;
  sbd_next : nextBackupTime q = nextBackupTime p;
  sbd_clock : Date_now q = Date_now p;
  sbd_data : data_json q = data_json p;
  sbd_notices : notices q = notices p
}.

(** What the construction of the archive leaves alone: everything but the
    notices and the console. *)
Record same_but_log (p q : plugin) : Prop := {
  sbl_settings : settings q = settings p;
  sbl_flag : isBackupInProgress q = isBackupInProgress p;
  sbl_next : nextBackupTime q = nextBackupTime p;
  sbl_clock : Date_now q = Date_now p;
  sbl_disk : disk q = disk p;
  sbl_trace : fs_trace q = fs_trace p;
  sbl_data : data_json q = data_json p
}.

(** The one notice that tells the user a backup is partial. *)
Definition reports_partial (p : plugin) : Prop :=
  PartialObsidianFolder ∈ notices p.

(** Induction on a tree, with the hypothesis for every entry of a listed
    directory. *)
Section NodeInduction.
Variable P : node -> Prop.

Definition holds_below (e : string * option node) : Prop :=
  match e.2 with Some n => P n | None => True end.

Hypothesis P_link : forall readlink referent, P (SymbolicLink readlink referent).
Hypothesis P_unlisted : P (Directory None).
Hypothesis P_listed : forall files : listing,
  Forall holds_below files -> P (Directory (Some files)).
Hypothesis P_file : forall raw text, P (RegularFile raw text).
Hypothesis P_special : P Special.

Fixpoint node_tree_ind (n : node) : P n :=
  match n with
  | SymbolicLink readlink referent => P_link readlink referent
  | Directory None => P_unlisted
  | Directory (Some files) =>
      P_listed files
        ((fix all (l : listing) : Forall holds_below l :=
            match l with
            | [] => @List.Forall_nil _ holds_below
            | (fname, lstat) :: r =>
                @List.Forall_cons _ holds_below (fname, lstat) r
                  match lstat return holds_below (fname, lstat) with
                  | Some c => node_tree_ind c
                  | None => I
                  end
                  (all r)
            end) files)
  | RegularFile raw text => P_file raw text
  | Special => P_special
  end.
End NodeInduction.

(** ** The countdown and the status bar *)

Record Countdown : Type := mkCountdown {
  hours : Z;
  minutes : Z;
  seconds : Z
}.

(** [Math.trunc], which [%] rounds the quotient with. *)
Definition Qtrunc (x : Q) : Z :=
  if Qle_bool 0 x then Qfloor x else Qceiling x.

(** [a % b] on numbers *)
Definition js_rem (a b : Q) : Q := (a - b * inject_Z (Qtrunc (a / b)))%Q.

(** [getTimeUntilNextBackup] *)
Definition getTimeUntilNextBackup (p : plugin) : Countdown :=
  let timeLeft := (nextBackupTime p - inject_Z (Date_now p))%Q in
  if Qlt_le_dec timeLeft 0 then mkCountdown 0 0 0
  else
    mkCountdown
      (Qfloor (timeLeft / (1000 * 60 * 60)))
      (Qfloor (js_rem timeLeft (1000 * 60 * 60) / (1000 * 60)))
      (Qfloor (js_rem timeLeft (1000 * 60) / 1000)).

(** What [updateStatusBarText] puts in the status bar. *)
Inductive status_text : Type :=
| BackingUpVault                            (* 'Backing Up Vault' *)
| StartingBackupSoon                        (* 'Starting Backup' *)
| BackupIn (hours minutes seconds : Z).     (* 'Backup: 1h 2m 3s' *)

Definition updateStatusBarText (p : plugin) : status_text :=
  let c := getTimeUntilNextBackup p in
  if isBackupInProgress p then BackingUpVault
  else if ((hours c =? 0) && (minutes c =? 0) && (seconds c =? 0))%bool
  then StartingBackupSoon
  else BackupIn (hours c) (minutes c) (seconds c).

(** ** More vocabulary of the properties *)

(** What no step of a backup undoes: the settings other than
    [lastBackupTime] and the schedule stay, the clock does not go back, and
    the notices, the console and the record of disk changes only get
    longer. *)
Record only_grows (p q : plugin) : Prop := {
  og_backupPath : backupPath (settings q) = backupPath (settings p);
  og_secondaryBackupPath :
    secondaryBackupPath (settings q) = secondaryBackupPath (settings p);
  og_autoBackupInterval :
    autoBackupInterval (settings q) = autoBackupInterval (settings p);
  og_compressionLevel : compressionLevel (settings q) = compressionLevel (settings p);
  og_maxBackupCount : maxBackupCount (settings q) = maxBackupCount (settings p);
  og_secondaryMaxBackupCount :
    secondaryMaxBackupCount (settings q) = secondaryMaxBackupCount (settings p);
  og_nextBackupTime : nextBackupTime q = nextBackupTime p;
  og_clock : Date_now p <= Date_now q;
  og_notices : notices p `prefix_of` notices q;
  og_console : console p `prefix_of` console q;
  og_fs_trace : fs_trace p `prefix_of` fs_trace q
}.

(** A computation all of whose outcomes are of that kind. *)
Definition growing {A} (m : M A) : Prop := forall p, only_grows p (m p).2.

(** Every character is white space. *)
Fixpoint allWhiteSpace (s : string) : bool :=
  match s with
  | EmptyString => true
  | String c r => JsString.isWhiteSpace c && allWhiteSpace r
  end.

(** What the [.obsidian] folder of the host adds to the archive, and what
    is shown while it is added. *)
Definition metadata_entries (h : host) : AdmZip :=
  match obsidianFolder h with
  | Some files => entries_of files ".obsidian"
  | None => []
  end.

Definition metadata_notices (h : host) : list notice :=
  match obsidianFolder h with
  | Some _ => [VerifyingBackup]
  | None => [VerifyingBackup; PartialObsidianFolder]
  end.

(** A deletion, among the changes of the disk. *)
Definition is_unlink (ev : fs_event) : Prop :=
  match ev with Unlinked _ _ => True | _ => False end.

(** The directory after a pass in which some archives cannot be deleted:
    an archive stays when fewer than [keepCount] archives are newer, or
    when its deletion fails. *)
Definition survivors (h : host) (dir : string) (keepCount : Z)
    (d : gmap string Z) : gmap string Z :=
  filter (fun e : string * Z =>
            isZip e.1 ->
            Z.of_nat (newer_archives d e.2) < keepCount
            \/ unlink_ok h dir e.1 = false) d.

(** What an entry of the metadata tree puts in the archive by itself, apart
    from what lies below it. *)
Definition own_entries (zipPath : string) (stats : node) : AdmZip :=
  match stats with
  | SymbolicLink (Some linkTarget) _ => [(zipPath, Buffer_from linkTarget)]
  | SymbolicLink None _ => []
  | Directory _ => [((zipPath ++ "/")%string, [])]
  | RegularFile (Some content) _ => [(zipPath, content)]
  | RegularFile None (Some text) => [(zipPath, Buffer_from text)]
  | RegularFile None None => []
  | Special => []
  end.
(** * Concrete hosts and states used below *)


Definition unconfigured_plugin : plugin :=
  mkPlugin (mkSettings "   " "/mnt/copy" 24 1699999990000 9 5 10)
           false 0 1700000000000 {[ "/mnt/copy" := {[ "old.zip" := 5 ]} ]} [] None [] [].

Definition quiet_host : host :=
  mkHost "/vault" "Notes" [("a.md", Some "alpha")] (Some [])
         (fun _ => "2023-11-14T22:13:20.000Z") (fun _ => Created)
         (fun _ _ => true) (fun _ _ => true) true
         (fun _ _ => true) (fun _ _ => true) None.


Definition configured_plugin : plugin :=
  mkPlugin (mkSettings "/backups" "" 24 1699999990000 9 5 10)
           false 0 1700000000000 {[ "/backups" := {[ "old.zip" := 5 ]} ]} [] None [] [].


(** Five archives kept at the primary location, "keep all" (0) at the
    secondary one. *)
Definition keep_all_secondary_plugin : plugin :=
  mkPlugin (mkSettings "/backups" "/mnt/copy" 24 1699999990000 9 5 0)
           false 0 1700000000000
           {[ "/backups" := {[ "mon.zip" := 100; "tue.zip" := 200 ]};
              "/mnt/copy" := {[ "mon.zip" := 100; "tue.zip" := 200; "wed.zip" := 300 ]} ]}
           [] None [] [].

(** "Keep all" (0) at the primary location, ten at the secondary one. *)
Definition keep_all_primary_plugin : plugin :=
  mkPlugin (mkSettings "/backups" "/mnt/copy" 24 1699999990000 9 0 10)
           false 0 1700000000000
           {[ "/backups" := {[ "mon.zip" := 100; "tue.zip" := 200 ]};
              "/mnt/copy" := {[ "mon.zip" := 100; "tue.zip" := 200; "wed.zip" := 300 ]} ]}
           [] None [] [].

(** The scheduler is due and idle. *)
Definition idle_loop : loop := mkLoop configured_plugin [].



Definition host_with (folder : option listing) : host :=
  mkHost "/vault" "Notes" [("a.md", Some "alpha")] folder
         (fun _ => "2023-11-14T22:13:20.000Z") (fun _ => Created)
         (fun _ _ => true) (fun _ _ => true) true
         (fun _ _ => true) (fun _ _ => true) None.




(** The scenario of the specification: five archives with distinct
    modification times, and a file that is not an archive. *)
Definition five_archives : gmap string Z :=
  {[ "mon.zip" := 100; "tue.zip" := 200; "wed.zip" := 300;
     "thu.zip" := 400; "fri.zip" := 500; "notes.txt" := 50 ]}.

Definition five_archives_plugin : plugin :=
  mkPlugin (mkSettings "/backups" "" 24 1699999990000 9 2 10)
           false 0 1700000000000 {[ "/backups" := five_archives ]} [] None [] [].

(** Hosts that fail at one step each. *)
Definition unreadable_note_host : host :=
  mkHost "/vault" "Notes"
         [("a.md", Some "alpha"); ("b.md", None); ("c.md", Some "gamma")] (Some [])
         (fun _ => "2023-11-14T22:13:20.000Z") (fun _ => Created)
         (fun _ _ => true) (fun _ _ => true) true
         (fun _ _ => true) (fun _ _ => true) None.

Definition no_mkdir_host : host :=
  mkHost "/vault" "Notes" [("a.md", Some "alpha")] (Some [])
         (fun _ => "2023-11-14T22:13:20.000Z") (fun _ => MkdirFails)
         (fun _ _ => true) (fun _ _ => true) true
         (fun _ _ => true) (fun _ _ => true) None.

Definition no_copy_host : host :=
  mkHost "/vault" "Notes" [("a.md", Some "alpha")] (Some [])
         (fun _ => "2023-11-14T22:13:20.000Z") (fun _ => Created)
         (fun _ _ => true) (fun _ _ => false) true
         (fun _ _ => true) (fun _ _ => true) None.

Definition no_save_host : host :=
  mkHost "/vault" "Notes" [("a.md", Some "alpha")] (Some [])
         (fun _ => "2023-11-14T22:13:20.000Z") (fun _ => Created)
         (fun _ _ => true) (fun _ _ => true) false
         (fun _ _ => true) (fun _ _ => true) None.

(** Two locations, both with room. *)
Definition two_locations_plugin : plugin :=
  mkPlugin (mkSettings "/backups" "/mnt/copy" 24 1699999990000 9 5 10)
           false 0 1700000000000
           {[ "/backups" := {[ "old.zip" := 5 ]}; "/mnt/copy" := ∅ ]}
           [] None [] [].

(** A host on which [tue.zip] cannot be deleted, and one on which it cannot
    be examined. *)
Definition locked_file_host : host :=
  mkHost "/vault" "Notes" [("a.md", Some "alpha")] (Some [])
         (fun _ => "2023-11-14T22:13:20.000Z") (fun _ => Created)
         (fun _ _ => true) (fun _ _ => true) true
         (fun _ _ => true) (fun _ n => negb (String.eqb n "tue.zip")) None.

Definition unreadable_stat_host : host :=
  mkHost "/vault" "Notes" [("a.md", Some "alpha")] (Some [])
         (fun _ => "2023-11-14T22:13:20.000Z") (fun _ => Created)
         (fun _ _ => true) (fun _ _ => true) true
         (fun _ n => negb (String.eqb n "tue.zip")) (fun _ _ => true) None.

(** One hour, two minutes and five and a half seconds before the next
    backup. *)
Definition counting_plugin : plugin :=
  mkPlugin (mkSettings "/backups" "" 24 1699999990000 9 5 10)
           false (inject_Z 1700000000000 + 3725500.5) 1700000000000 ∅ [] None [] [].

(** * Properties *)

(** ** Scheduling *)





(** ** The path check and the in-progress flag *)

(** C3. With a blank primary path [createBackup] returns at once: it shows
    the configuration error and changes nothing else, neither the settings
    (so [lastBackupTime] stays), nor the flag, nor the disk, nor what is
    persisted, and it does not wait. *)
Theorem createBackup_blank_path (h : host) (p : plugin) :
  isBlank (backupPath (settings p)) = true ->
  createBackup_enter p = Returned (createBackup h p)
  /\ notices (createBackup h p) = notices p ++ [NoPrimaryBackupPath]
  /\ settings (createBackup h p) = settings p
  /\ isBackupInProgress (createBackup h p) = isBackupInProgress p
  /\ disk (createBackup h p) = disk p
  /\ fs_trace (createBackup h p) = fs_trace p
  /\ data_json (createBackup h p) = data_json p
  /\ Date_now (createBackup h p) = Date_now p.
Proof.
  intros Hblank. unfold createBackup, createBackup_enter. rewrite Hblank.
  repeat split.
Qed.

Lemma createBackup_blank_path_spaces :
  isBlank (backupPath (settings unconfigured_plugin)) = true
  /\ notices (createBackup quiet_host unconfigured_plugin) = [NoPrimaryBackupPath]
  /\ lastBackupTime (settings (createBackup quiet_host unconfigured_plugin))
     = 1699999990000
  /\ isBackupInProgress (createBackup quiet_host unconfigured_plugin) = false
  /\ fs_trace (createBackup quiet_host unconfigured_plugin) = [].
Proof.
  assert (Hb : isBlank (backupPath (settings unconfigured_plugin)) = true)
    by reflexivity.
  destruct (createBackup_blank_path quiet_host unconfigured_plugin Hb)
    as (_ & Hn & Hs & Hf & _ & Ht & _).
  split; [exact Hb |].
  split; [exact Hn |].
  split; [rewrite Hs; reflexivity |].
  split; [rewrite Hf; reflexivity |].
  rewrite Ht. reflexivity.
Defined.




(** ** Retention *)

Section Sorting.
Context {A : Type} (compare : A -> A -> Z).

Lemma sort_insert_perm (x : A) (l : list A) : sort_insert compare x l ≡ₚ x :: l.
Proof.
  induction l as [| y r IH]; cbn; [reflexivity |].
  destruct (0 <? compare x y); [| reflexivity].
  rewrite IH. apply Permutation_swap.
Qed.

Lemma sort_perm (l : list A) : sort compare l ≡ₚ l.
Proof.
  induction l as [| x r IH]; cbn; [reflexivity |].
  rewrite sort_insert_perm, IH. reflexivity.
Qed.

Lemma slice_sublist (start : Z) (l : list A) : slice start l ⊆ l.
Proof. unfold slice. apply subseteq_drop. Qed.
End Sorting.

Lemma same_but_disk_refl (p : plugin) : same_but_disk p p.
Proof. split; reflexivity. Qed.

Lemma same_but_disk_trans (p q r : plugin) :
  same_but_disk p q -> same_but_disk q r -> same_but_disk p r.
Proof. intros [] []. split; congruence. Qed.

Lemma deleteOne_frame (h : host) (p : plugin) (file : BackupFile) :
  same_but_disk p (deleteOne h p file).
Proof.
  unfold deleteOne, unlink.
  destruct (unlink_ok h _ _); [| split; reflexivity].
  destruct (disk p !! _) as [d |]; [| split; reflexivity]. cbn.
  destruct (d !! _); split; reflexivity.
Qed.

Lemma deleteOne_other_dir (h : host) (p : plugin) (file : BackupFile) (dir : string) :
  (path file).1 ≠ dir -> disk (deleteOne h p file) !! dir = disk p !! dir.
Proof.
  intros Hne. unfold deleteOne, unlink.
  destruct (unlink_ok h _ _); [| reflexivity].
  destruct (disk p !! (path file).1) as [d |] eqn:Hd; [| reflexivity]. cbn.
  destruct (d !! _); [| reflexivity]. cbn.
  apply lookup_insert_ne. exact Hne.
Qed.

Lemma deleteAll_frame (h : host) (files : list BackupFile) (p : plugin) :
  same_but_disk p (foldl (deleteOne h) p files).
Proof.
  revert p. induction files as [| f r IH]; intros p; cbn.
  - apply same_but_disk_refl.
  - eapply same_but_disk_trans; [apply deleteOne_frame | apply IH].
Qed.

Lemma deleteAll_other_dir (h : host) (files : list BackupFile) (p : plugin)
    (dir : string) :
  Forall (fun f => (path f).1 ≠ dir) files ->
  disk (foldl (deleteOne h) p files) !! dir = disk p !! dir.
Proof.
  revert p. induction files as [| f r IH]; intros p Hall; cbn; [reflexivity |].
  inversion Hall; subst. rewrite IH by assumption.
  apply deleteOne_other_dir. assumption.
Qed.

(** The records [cleanDirectory] builds all name files of [backupDir]. *)
Lemma statAll_paths (h : host) (p : plugin) (backupDir : string)
    (names : list string) (backupFiles : list BackupFile) :
  mapM (fun filename =>
          mkBackupFile filename (backupDir, filename)
            <$> stat_mtime h p backupDir filename) names = Some backupFiles ->
  Forall (fun f => path f = (backupDir, name f)) backupFiles.
Proof.
  intros Hm. apply mapM_Some_1 in Hm.
  induction Hm as [| x y l k Hxy _ IH]; constructor; [| exact IH].
  destruct (stat_mtime h p backupDir x); cbn in Hxy; [| discriminate].
  injection Hxy as <-. reflexivity.
Qed.

Lemma cleanDirectory_frame (h : host) (backupDir : string) (n : Z) (p : plugin) :
  same_but_disk p (cleanDirectory h backupDir n p).
Proof.
  unfold cleanDirectory.
  destruct (readdir p backupDir); [| split; reflexivity].
  destruct (mapM _ _); [| split; reflexivity].
  apply deleteAll_frame.
Qed.

Lemma cleanDirectory_other_dir (h : host) (backupDir : string) (n : Z)
    (p : plugin) (dir : string) :
  dir ≠ backupDir -> disk (cleanDirectory h backupDir n p) !! dir = disk p !! dir.
Proof.
  intros Hne. unfold cleanDirectory.
  destruct (readdir p backupDir); [| reflexivity].
  destruct (mapM _ _) as [backupFiles |] eqn:Hm; [| reflexivity].
  apply deleteAll_other_dir.
  apply statAll_paths in Hm.
  rewrite Forall_forall in Hm |- *. intros f Hf.
  apply slice_sublist in Hf. rewrite sort_perm in Hf.
  rewrite (Hm f Hf). cbn. congruence.
Qed.

(** C10. The retention pass is guarded by the primary keep-count alone.  When
    that count is not positive nothing is pruned at either destination,
    whatever the secondary count is.  When it is positive the primary
    directory is pruned with the primary count and then, if and only if a
    secondary path is configured, the secondary directory with the secondary
    count; without a configured secondary path no other directory than the
    primary one changes. *)
Theorem cleanOldBackups_primary_guard (h : host) (p : plugin) :
  (maxBackupCount (settings p) <= 0 -> cleanOldBackups h p = (Ok tt, p))
  /\ (0 < maxBackupCount (settings p) ->
      JsString.isEmpty (backupPath (settings p)) = false ->
      let pruned :=
        cleanDirectory h (backupPath (settings p)) (maxBackupCount (settings p)) p in
      (isConfigured (secondaryBackupPath (settings p)) = true ->
       cleanOldBackups h p
       = (Ok tt, cleanDirectory h (secondaryBackupPath (settings p))
                   (secondaryMaxBackupCount (settings p)) pruned))
      /\ (isConfigured (secondaryBackupPath (settings p)) = false ->
          cleanOldBackups h p = (Ok tt, pruned)
          /\ forall dir, dir ≠ backupPath (settings p) ->
               disk (cleanOldBackups h p).2 !! dir = disk p !! dir)).
Proof.
  split.
  - intros Hle. unfold cleanOldBackups.
    destruct (Z.leb_spec (maxBackupCount (settings p)) 0); [reflexivity | lia].
  - intros Hpos Hpath pruned.
    assert (Hs : settings pruned = settings p) by apply cleanDirectory_frame.
    assert (Hrun : cleanOldBackups h p
                   = if isConfigured (secondaryBackupPath (settings p))
                     then (Ok tt, cleanDirectory h (secondaryBackupPath (settings p))
                                    (secondaryMaxBackupCount (settings p)) pruned)
                     else (Ok tt, pruned)).
    { unfold cleanOldBackups.
      destruct (Z.leb_spec (maxBackupCount (settings p)) 0); [lia |].
      rewrite Hpath. fold pruned. rewrite Hs. reflexivity. }
    split; intros Hsec; rewrite Hrun, Hsec; [reflexivity |].
    split; [reflexivity |].
    intros dir Hne. cbn. apply cleanDirectory_other_dir. exact Hne.
Qed.

Lemma cleanOldBackups_primary_guard_examples :
  (maxBackupCount (settings keep_all_primary_plugin) <= 0
   /\ cleanOldBackups quiet_host keep_all_primary_plugin
      = (Ok tt, keep_all_primary_plugin))
  /\ (0 < maxBackupCount (settings configured_plugin)
      /\ isConfigured (secondaryBackupPath (settings configured_plugin)) = false
      /\ forall dir, dir ≠ "/backups" ->
           disk (cleanOldBackups quiet_host configured_plugin).2 !! dir
           = disk configured_plugin !! dir).
Proof.
  split.
  - split; [vm_compute; discriminate |].
    apply (proj1 (cleanOldBackups_primary_guard quiet_host keep_all_primary_plugin)).
    vm_compute. discriminate.
  - split; [reflexivity |]. split; [reflexivity |].
    destruct (cleanOldBackups_primary_guard quiet_host configured_plugin) as [_ Hpos].
    destruct Hpos as [_ Hnone]; [reflexivity | reflexivity |].
    apply Hnone. reflexivity.
Defined.

(** C2. At the primary location a keep-count of zero or less prunes
    nothing, by the guard above.  At the secondary location it does not hold:
    with a positive primary count and a secondary count of 0, which the
    settings tab describes as "keep all", [cleanDirectory] is called with 0,
    [slice(0)] selects every archive, and all of them are deleted, the copy
    just made included. *)
Theorem cleanOldBackups_secondary_zero_deletes_all :
  secondaryMaxBackupCount (settings keep_all_secondary_plugin) = 0
  /\ fs_trace (cleanOldBackups quiet_host keep_all_secondary_plugin).2
     = [Unlinked "/mnt/copy" "wed.zip"; Unlinked "/mnt/copy" "tue.zip";
        Unlinked "/mnt/copy" "mon.zip"]
  /\ disk (cleanOldBackups quiet_host keep_all_secondary_plugin).2 !! "/mnt/copy"
     = Some ∅
  /\ disk (createBackup quiet_host keep_all_secondary_plugin) !! "/mnt/copy"
     = Some ∅.
Proof. vm_compute. repeat split. Qed.

(** [slice] with a start of zero or less never selects nothing of a
    non-empty list: a count of 0 selects all of it, a negative count the
    last elements. *)
Lemma slice_nonpositive {A} (n : Z) (l : list A) :
  n <= 0 -> l ≠ [] -> slice n l ≠ [].
Proof.
  intros Hn Hl Hs. unfold slice in Hs. apply drop_nil_inv in Hs.
  destruct l as [| x r]; [congruence |]. cbn [length] in Hs.
  destruct (Z.ltb_spec n 0); lia.
Qed.

(** ** Overlapping runs *)

(** [createBackup] does not look at the flag: past the path check it always
    raises it and goes on. *)
Lemma createBackup_enter_ignores_flag (p : plugin) :
  isBlank (backupPath (settings p)) = false ->
  createBackup_enter p
  = Waiting (show StartingBackup (set_isBackupInProgress true p)).
Proof. intros Hb. unfold createBackup_enter. rewrite Hb. reflexivity. Qed.

(** The tick does look at it: while the flag is up it starts nothing. *)
Lemma checkAndRunBackup_guard (l : loop) :
  isBackupInProgress (plug l) = true -> checkAndRunBackup l = l.
Proof.
  intros Hf. unfold checkAndRunBackup, isBackingUp. rewrite Hf.
  rewrite andb_false_r. reflexivity.
Qed.

(** X22. From an idle loop, "Backup now" followed at once by a tick leaves at
    most one call in flight. *)
Lemma forceBackupNow_then_tick (p : plugin) :
  (length (in_flight (checkAndRunBackup (forceBackupNow (mkLoop p [])))) <= 1)%nat.
Proof.
  unfold forceBackupNow. cbn [plug in_flight].
  unfold createBackup_enter.
  destruct (isBlank (backupPath (settings p))) eqn:Hb.
  - unfold checkAndRunBackup. cbn [plug in_flight].
    destruct (_ && _)%bool; cbn; [| lia].
    unfold createBackup_enter. cbn. rewrite Hb. cbn. lia.
  - rewrite checkAndRunBackup_guard by reflexivity. cbn. lia.
Qed.

(** C1. A tick that is due starts a backup; "Backup now", clicked while
    that call waits, finds the flag up and starts a second one all the same:
    two calls are in flight, and each writes its archive. *)
Theorem forceBackupNow_during_backup_starts_second_run :
  isBackupInProgress (plug (steps quiet_host idle_loop [TimerTick])) = true
  /\ in_flight (steps quiet_host idle_loop [TimerTick; ClickBackupNow])
     = [(Tick, 1700000002000); (BackupNow, 1700000002000)]
  /\ fs_trace (plug (steps quiet_host idle_loop
                       [TimerTick; ClickBackupNow; Elapse 2000; Wake 0; Wake 0]))
     = [WroteZip "/backups" "2023-11-14T22-13-20_Notes.zip"
          [("a.md", Buffer_from "alpha")];
        WroteZip "/backups" "2023-11-14T22-13-20_Notes.zip"
          [("a.md", Buffer_from "alpha")]].
Proof. vm_compute. repeat split. Qed.

(** ** The traversal of the metadata tree *)

Lemma addEntriesToZip_app (l1 l2 : listing) (base : string) (w : walk) :
  addEntriesToZip (l1 ++ l2) base w
  = addEntriesToZip l2 base (addEntriesToZip l1 base w).
Proof.
  revert w. induction l1 as [| [fname lstat] r IH]; intros w; cbn; [reflexivity |].
  apply IH.
Qed.

(** The recursive call: a directory that can be listed is traversed by the
    same loop, under its own mapped path. *)
Lemma addEntryToZip_directory (files : listing) (zipPath : string) (w : walk) :
  addEntryToZip (Directory (Some files)) zipPath w
  = addEntriesToZip files zipPath (zip_add (zipPath ++ "/")%string [] w).
Proof.
  cbn. generalize (zip_add (zipPath ++ "/")%string [] w). clear w.
  induction files as [| [fname lstat] r IH]; intros w; cbn; [reflexivity |].
  apply IH.
Qed.

(** The turn for a directory, in terms of [addFolderToZip] as the source
    has it: the directory entry, the recursive call, and the [catch] of the
    turn when that call throws. *)
Lemma addEntryToZip_recursion (rd : option listing) (zipPath : string) (w : walk) :
  addEntryToZip (Directory rd) zipPath w
  = match addFolderToZip (zip_add (zipPath ++ "/")%string [] w) rd zipPath with
    | (w', None) => w'
    | (w', Some _) => tell SkippingProblematicPath w'
    end.
Proof.
  destruct rd as [files |]; [| reflexivity].
  rewrite addEntryToZip_directory. reflexivity.
Qed.

(** The archive only grows, and what is added does not depend on what the
    archive and the console held before. *)
Lemma addEntriesToZip_zip_aux (files : listing) :
  Forall (holds_below (fun n => forall zipPath w,
            (addEntryToZip n zipPath w).1
            = w.1 ++ (addEntryToZip n zipPath ([], [])).1)) files ->
  forall base w,
    (addEntriesToZip files base w).1 = w.1 ++ entries_of files base.
Proof.
  unfold entries_of.
  induction 1 as [| [fname lstat] r Hx _ IH]; intros base w; cbn.
  - rewrite List.app_nil_r. reflexivity.
  - rewrite IH. symmetry. rewrite IH. symmetry.
    destruct lstat as [stats |]; cbn.
    + unfold holds_below in Hx. cbn in Hx. rewrite Hx, List.app_assoc. reflexivity.
    + reflexivity.
Qed.

Lemma addEntryToZip_zip (n : node) (zipPath : string) (w : walk) :
  (addEntryToZip n zipPath w).1 = w.1 ++ (addEntryToZip n zipPath ([], [])).1.
Proof.
  revert zipPath w. induction n using node_tree_ind; intros zipPath w.
  - destruct readlink; cbn; [reflexivity | rewrite List.app_nil_r; reflexivity].
  - reflexivity.
  - rewrite !addEntryToZip_directory.
    rewrite !(addEntriesToZip_zip_aux files H). cbn.
    unfold addFile. rewrite <- List.app_assoc. reflexivity.
  - destruct raw; [reflexivity |].
    destruct text; cbn; [reflexivity | rewrite List.app_nil_r; reflexivity].
  - cbn. rewrite List.app_nil_r. reflexivity.
Qed.

Lemma addEntriesToZip_zip (files : listing) (base : string) (w : walk) :
  (addEntriesToZip files base w).1 = w.1 ++ entries_of files base.
Proof.
  apply addEntriesToZip_zip_aux. apply Forall_forall. intros [fname lstat] _.
  unfold holds_below. cbn. destruct lstat; [| exact I].
  intros zipPath w'. apply addEntryToZip_zip.
Qed.

Lemma entries_of_app (l1 l2 : listing) (base : string) :
  entries_of (l1 ++ l2) base = entries_of l1 base ++ entries_of l2 base.
Proof.
  unfold entries_of at 1. rewrite addEntriesToZip_app, addEntriesToZip_zip.
  reflexivity.
Qed.

Lemma entries_of_cons (fname : string) (lstat : option node) (r : listing)
    (base : string) :
  entries_of ((fname, lstat) :: r) base
  = match lstat with
    | Some stats => (addEntryToZip stats (Path.join base fname) ([], [])).1
    | None => []
    end ++ entries_of r base.
Proof.
  unfold entries_of at 1. cbn. rewrite addEntriesToZip_zip.
  destruct lstat; reflexivity.
Qed.

(** The same for the console. *)
Lemma addEntriesToZip_lines_aux (files : listing) :
  Forall (holds_below (fun n => forall zipPath w,
            (addEntryToZip n zipPath w).2
            = w.2 ++ (addEntryToZip n zipPath ([], [])).2)) files ->
  forall base w,
    (addEntriesToZip files base w).2 = w.2 ++ lines_of files base.
Proof.
  unfold lines_of.
  induction 1 as [| [fname lstat] r Hx _ IH]; intros base w; cbn.
  - rewrite List.app_nil_r. reflexivity.
  - rewrite IH. symmetry. rewrite IH. symmetry.
    destruct lstat as [stats |]; cbn.
    + unfold holds_below in Hx. cbn in Hx. rewrite Hx, List.app_assoc. reflexivity.
    + rewrite <- List.app_assoc. reflexivity.
Qed.

Lemma addEntryToZip_lines (n : node) (zipPath : string) (w : walk) :
  (addEntryToZip n zipPath w).2 = w.2 ++ (addEntryToZip n zipPath ([], [])).2.
Proof.
  revert zipPath w. induction n using node_tree_ind; intros zipPath w.
  - destruct readlink; cbn; [rewrite List.app_nil_r; reflexivity | reflexivity].
  - cbn. rewrite <- List.app_assoc. reflexivity.
  - rewrite !addEntryToZip_directory.
    rewrite !(addEntriesToZip_lines_aux files H). reflexivity.
  - destruct raw; [cbn; rewrite List.app_nil_r; reflexivity |].
    destruct text; cbn; [rewrite List.app_nil_r; reflexivity | reflexivity].
  - cbn. rewrite List.app_nil_r. reflexivity.
Qed.

Lemma addEntriesToZip_lines (files : listing) (base : string) (w : walk) :
  (addEntriesToZip files base w).2 = w.2 ++ lines_of files base.
Proof.
  apply addEntriesToZip_lines_aux. apply Forall_forall. intros [fname lstat] _.
  unfold holds_below. cbn. destruct lstat; [| exact I].
  intros zipPath w'. apply addEntryToZip_lines.
Qed.

Lemma lines_of_app (l1 l2 : listing) (base : string) :
  lines_of (l1 ++ l2) base = lines_of l1 base ++ lines_of l2 base.
Proof.
  unfold lines_of at 1. rewrite addEntriesToZip_app, addEntriesToZip_lines.
  reflexivity.
Qed.

(** Every entry the traversal comes to leaves what its own turn adds. *)
Lemma visits_entries (files : listing) (base zipPath : string) (stats : node) :
  visits files base zipPath stats ->
  forall e, e ∈ (addEntryToZip stats zipPath ([], [])).1 ->
            e ∈ entries_of files base.
Proof.
  induction 1 as [files base fname stats Hin
                 | files sub base fname zipPath stats Hin _ IH]; intros e He.
  - apply list_elem_of_split in Hin as (l1 & l2 & ->).
    rewrite entries_of_app, entries_of_cons. set_solver.
  - apply list_elem_of_split in Hin as (l1 & l2 & ->).
    rewrite entries_of_app, entries_of_cons.
    rewrite addEntryToZip_directory, addEntriesToZip_zip.
    specialize (IH e He). set_solver.
Qed.




(** ** The run of [createBackup] *)

Lemma plugin_eta (p : plugin) :
  mkPlugin (settings p) (isBackupInProgress p) (nextBackupTime p) (Date_now p)
           (disk p) (fs_trace p) (data_json p) (notices p) (console p) = p.
Proof. destruct p. reflexivity. Qed.

Lemma addVaultFiles_readable (files : list (string * option string))
    (totalFiles processedFiles : nat) (zip : AdmZip) (p : plugin) :
  Forall (fun f => is_Some f.2) files ->
  exists q,
    addVaultFiles files totalFiles processedFiles zip p
    = (Ok (zip ++ vault_entries files), q)
    /\ same_but_log p q
    /\ notices q = notices p ++ progress (length files) totalFiles processedFiles
    /\ console q = console p.
Proof.
  intros Hall. revert processedFiles zip p.
  induction Hall as [| [file_path read] r [content Hread] _ IH];
    intros processedFiles zip p.
  - exists p. cbn. rewrite !List.app_nil_r. repeat split.
  - cbn in Hread. subst read. cbn.
    destruct (IH (S processedFiles) (addFile file_path (Buffer_from content) zip)
                 (show (AddingFiles (S processedFiles) totalFiles) p))
      as (q & Hrun & Hsame & Hn & Hc).
    exists q. unfold bind, lift. rewrite Hrun.
    split; [unfold addFile; rewrite <- List.app_assoc; reflexivity |].
    split; [destruct Hsame; split; assumption |].
    split; [rewrite Hn; cbn; rewrite <- List.app_assoc; reflexivity |].
    exact Hc.
Qed.


Lemma getBackupPath_backupDir (h : host) (s : BackupPluginSettings) (filename : string) :
  getBackupPath h s filename = (backupDir h s, filename).
Proof.
  unfold backupDir, getBackupPath.
  destruct (JsString.isEmpty (backupPath s)); [reflexivity |].
  destruct (Path.isAbsolute (backupPath s)); reflexivity.
Qed.

Lemma isBlank_isEmpty (path : string) :
  isBlank path = false -> JsString.isEmpty path = false.
Proof. unfold isBlank. intros H. apply orb_false_iff in H. tauto. Qed.

Lemma ensured_is_backupDir (h : host) (s : BackupPluginSettings) :
  JsString.isEmpty (backupPath s) = false ->
  (if Path.isAbsolute (backupPath s) then backupPath s
   else Path.join (getBasePath h) (backupPath s)) = backupDir h s.
Proof.
  intros Hne. unfold backupDir, getBackupPath. rewrite Hne.
  destruct (Path.isAbsolute (backupPath s)); reflexivity.
Qed.

(** The run up to the write: the directory is made sure of, nothing else
    has changed. *)
Lemma ensureBackupDir_effect (h : host) (dir : string) (p : plugin) :
  mkdir h dir ≠ MkdirFails ->
  exists q,
    ensureBackupDir h dir p = (Ok tt, q)
    /\ same_but_disk p q
    /\ console q = console p
    /\ (fs_trace q = fs_trace p \/ fs_trace q = fs_trace p ++ [MadeDir dir])
    /\ (forall other, other ≠ dir -> disk q !! other = disk p !! other).
Proof.
  intros Hmk. unfold ensureBackupDir.
  destruct (mkdir h dir); [| | congruence].
  - unfold lift. destruct (disk p !! dir); eexists; (split; [reflexivity |]).
    + split; [apply same_but_disk_refl | auto].
    + split; [split; reflexivity |]. cbn. split; [reflexivity |].
      split; [auto |]. intros other Hne. apply lookup_insert_ne. congruence.
  - exists p. split; [reflexivity |].
    split; [apply same_but_disk_refl | auto].
Qed.





(** ** A run that succeeds *)

Lemma deleteOne_grows (h : host) (p : plugin) (file : BackupFile) :
  fs_trace p `prefix_of` fs_trace (deleteOne h p file)
  /\ console p `prefix_of` console (deleteOne h p file).
Proof.
  unfold deleteOne, unlink.
  destruct (unlink_ok h _ _); [| split; [reflexivity | eexists; reflexivity]].
  destruct (disk p !! _) as [d |]; [| split; [reflexivity | eexists; reflexivity]].
  cbn. destruct (d !! _); split; cbn; try reflexivity; eexists; reflexivity.
Qed.

Lemma deleteAll_grows (h : host) (files : list BackupFile) (p : plugin) :
  fs_trace p `prefix_of` fs_trace (foldl (deleteOne h) p files)
  /\ console p `prefix_of` console (foldl (deleteOne h) p files).
Proof.
  revert p. induction files as [| f r IH]; intros p; cbn; [split; reflexivity |].
  destruct (deleteOne_grows h p f) as [Ht Hc].
  destruct (IH (deleteOne h p f)) as [Ht' Hc'].
  split; etransitivity; eassumption.
Qed.

Lemma cleanDirectory_grows (h : host) (dir : string) (n : Z) (p : plugin) :
  fs_trace p `prefix_of` fs_trace (cleanDirectory h dir n p)
  /\ console p `prefix_of` console (cleanDirectory h dir n p).
Proof.
  unfold cleanDirectory.
  destruct (readdir p dir); [| split; [reflexivity | eexists; reflexivity]].
  destruct (mapM _ _); [| split; [reflexivity | eexists; reflexivity]].
  apply deleteAll_grows.
Qed.

(** With a primary path the retention pass does not throw; it touches the
    disk and the console only, and adds to their records. *)
Lemma cleanOldBackups_returns (h : host) (p : plugin) :
  JsString.isEmpty (backupPath (settings p)) = false ->
  exists q,
    cleanOldBackups h p = (Ok tt, q)
    /\ same_but_disk p q
    /\ fs_trace p `prefix_of` fs_trace q
    /\ console p `prefix_of` console q.
Proof.
  intros Hne. unfold cleanOldBackups. rewrite Hne.
  destruct (maxBackupCount (settings p) <=? 0).
  { exists p. split; [reflexivity |]. split; [apply same_but_disk_refl |].
    split; reflexivity. }
  set (p1 := cleanDirectory h (backupPath (settings p)) (maxBackupCount (settings p)) p).
  pose proof (cleanDirectory_frame h (backupPath (settings p))
                (maxBackupCount (settings p)) p) as Hf1.
  destruct (cleanDirectory_grows h (backupPath (settings p))
              (maxBackupCount (settings p)) p) as [Ht1 Hc1].
  fold p1 in Hf1, Ht1, Hc1.
  destruct (isConfigured (secondaryBackupPath (settings p1))).
  - eexists. split; [reflexivity |].
    destruct (cleanDirectory_grows h (secondaryBackupPath (settings p1))
                (secondaryMaxBackupCount (settings p1)) p1) as [Ht2 Hc2].
    split; [| split; etransitivity; eassumption].
    eapply same_but_disk_trans; [exact Hf1 | apply cleanDirectory_frame].
  - exists p1. split; [reflexivity |]. auto.
Qed.

Lemma copyToSecondary_effect (h : host) (zipName : string) (p : plugin) :
  exists warned,
    notices (copyToSecondary h zipName p) = notices p ++ warned
    /\ (warned = [] \/ warned = [SecondaryFolderMissing])
    /\ settings (copyToSecondary h zipName p) = settings p
    /\ isBackupInProgress (copyToSecondary h zipName p) = isBackupInProgress p
    /\ Date_now (copyToSecondary h zipName p) = Date_now p
    /\ fs_trace p `prefix_of` fs_trace (copyToSecondary h zipName p)
    /\ console p `prefix_of` console (copyToSecondary h zipName p).
Proof.
  unfold copyToSecondary.
  destruct (isConfigured _).
  - destruct (_ && _)%bool.
    + exists []. cbn. rewrite List.app_nil_r.
      repeat split; auto; try reflexivity. eexists; reflexivity.
    + exists [SecondaryFolderMissing]. cbn.
      repeat split; auto; try reflexivity. eexists; reflexivity.
  - exists []. rewrite List.app_nil_r. repeat split; auto; reflexivity.
Qed.


Lemma lines_of_cons (fname : string) (lstat : option node) (r : listing)
    (base : string) :
  lines_of ((fname, lstat) :: r) base
  = match lstat with
    | Some stats => (addEntryToZip stats (Path.join base fname) ([], [])).2
    | None => [SkippingProblematicPath]
    end ++ lines_of r base.
Proof.
  unfold lines_of at 1. cbn. rewrite addEntriesToZip_lines.
  destruct lstat; reflexivity.
Qed.







(** ** Which archives the retention pass keeps *)

Lemma sort_insert_sorted (x : BackupFile) (l : list BackupFile) :
  StronglySorted (fun a b => time b <= time a) l ->
  StronglySorted (fun a b => time b <= time a) (sort_insert by_time x l).
Proof.
  induction 1 as [| y r Hr IH Hy]; cbn.
  - repeat constructor.
  - unfold by_time at 1. destruct (Z.ltb_spec 0 (time y - time x)).
    + constructor; [exact IH |].
      rewrite sort_insert_perm. constructor; [lia | exact Hy].
    + constructor; [constructor; assumption |].
      constructor; [lia |].
      eapply Forall_impl; [exact Hy |]. cbn. intros b Hb. lia.
Qed.

Lemma sort_sorted (l : list BackupFile) :
  StronglySorted (fun a b => time b <= time a) (sort by_time l).
Proof.
  induction l as [| x r IH]; cbn; [constructor |].
  apply sort_insert_sorted. exact IH.
Qed.

Lemma sorted_distinct_strict (s : list BackupFile) :
  StronglySorted (fun a b => time b <= time a) s ->
  NoDup (time <$> s) ->
  StronglySorted (fun a b => time b < time a) s.
Proof.
  induction 1 as [| x r Hr IH Hx]; intros Hnd; [constructor |].
  cbn in Hnd. apply NoDup_cons in Hnd as [Hnotin Hnd].
  constructor; [apply IH; exact Hnd |].
  rewrite Forall_forall in Hx |- *. intros b Hb.
  specialize (Hx b Hb). cbn in Hx.
  assert (time b ≠ time x); [| lia].
  intros Heq. apply Hnotin. rewrite <- Heq. apply list_elem_of_fmap_2. exact Hb.
Qed.

Lemma filter_none {A} (P : A -> Prop) `{!forall x, Decision (P x)} (l : list A) :
  Forall (fun x => ~ P x) l -> filter P l = [].
Proof.
  induction 1 as [| x r Hx _ IH]; [reflexivity |].
  rewrite filter_cons_False by exact Hx. exact IH.
Qed.

(** In a list sorted most recent first, with distinct times, the position of
    a file is the number of files newer than it. *)
Lemma newer_count_is_index (s : list BackupFile) :
  StronglySorted (fun a b => time b < time a) s ->
  forall i f, s !! i = Some f ->
    length (filter (fun g => time f < time g) s) = i.
Proof.
  induction 1 as [| x r Hr IH Hx]; intros i f Hi; [discriminate |].
  destruct i as [| j]; cbn in Hi.
  - injection Hi as ->. rewrite filter_cons_False by lia.
    rewrite filter_none; [reflexivity |].
    eapply Forall_impl; [exact Hx |]. cbn. intros b Hb. lia.
  - assert (Hf : f ∈ r) by (eapply list_elem_of_lookup_2; exact Hi).
    rewrite Forall_forall in Hx. pose proof (Hx f Hf) as Hlt. cbn in Hlt.
    rewrite filter_cons_True by exact Hlt. cbn.
    f_equal. apply IH. exact Hi.
Qed.

(** Every archive of the directory gets its record, in listing order. *)
Lemma statAll_ok (h : host) (p : plugin) (dir : string) (d : gmap string Z)
    (l : list (string * Z)) :
  disk p !! dir = Some d ->
  (forall e, e ∈ l -> d !! e.1 = Some e.2 /\ (isZip e.1 -> stat_ok h dir e.1 = true)) ->
  mapM (fun filename =>
          mkBackupFile filename (dir, filename) <$> stat_mtime h p dir filename)
       (filter isZip l.*1)
  = Some ((fun e => mkBackupFile e.1 (dir, e.1) e.2)
            <$> filter (fun e : string * Z => isZip e.1) l).
Proof.
  intros Hd. induction l as [| e r IH]; intros Hall; [reflexivity |].
  assert (Hr : forall e', e' ∈ r ->
             d !! e'.1 = Some e'.2 /\ (isZip e'.1 -> stat_ok h dir e'.1 = true)).
  { intros e' He'. apply Hall. right. exact He'. }
  destruct (Hall e (list_elem_of_here _ _)) as [Hlook Hstat].
  rewrite fmap_cons, !filter_cons.
  destruct (decide (isZip e.1)) as [Hz | Hz]; [| apply IH; exact Hr].
  cbn. rewrite (IH Hr). unfold stat_mtime. rewrite (Hstat Hz), Hd. cbn.
  rewrite Hlook. reflexivity.
Qed.

(** Deleting files that are there and can be deleted removes exactly them,
    one [unlink] each. *)
Lemma deleteAll_ok (h : host) (dir : string) (dels : list BackupFile) :
  forall (p : plugin) (d : gmap string Z),
  disk p !! dir = Some d ->
  NoDup (name <$> dels) ->
  Forall (fun f => path f = (dir, name f) /\ unlink_ok h dir (name f) = true
                   /\ is_Some (d !! name f)) dels ->
  exists d',
    disk (foldl (deleteOne h) p dels) !! dir = Some d'
    /\ (forall n, d' !! n = if decide (n ∈ name <$> dels) then None else d !! n)
    /\ length (fs_trace (foldl (deleteOne h) p dels))
       = (length (fs_trace p) + length dels)%nat.
Proof.
  induction dels as [| f r IH]; intros p d Hd Hnd Hall.
  - exists d. split; [exact Hd |]. split; [| cbn; lia].
    intros n. destruct (decide _) as [Hin | _]; [| reflexivity].
    apply elem_of_nil in Hin. contradiction.
  - rewrite fmap_cons in Hnd. apply NoDup_cons in Hnd as [Hf Hnd].
    apply Forall_cons in Hall as [(Hpath & Hok & [t Ht]) Hall].
    set (p1 := deleteOne h p f).
    assert (Hp1 : disk p1 !! dir = Some (delete (name f) d)
                  /\ length (fs_trace p1) = S (length (fs_trace p))).
    { subst p1. unfold deleteOne, unlink. rewrite Hpath. cbn [fst snd].
      rewrite Hok, Hd. cbn. rewrite Ht. cbn.
      rewrite lookup_insert_eq, length_app. cbn. split; [reflexivity | lia]. }
    destruct Hp1 as [Hd1 Hlen1].
    destruct (IH p1 (delete (name f) d) Hd1 Hnd) as (d' & Hd' & Hlook & Hlen).
    { rewrite Forall_forall in Hall |- *. intros g Hg.
      destruct (Hall g Hg) as (Hgp & Hgo & Hgs).
      split; [exact Hgp |]. split; [exact Hgo |].
      rewrite lookup_delete_ne; [exact Hgs |].
      intros Heq. apply Hf. rewrite Heq. apply list_elem_of_fmap_2. exact Hg. }
    exists d'. cbn [foldl]. fold p1. split; [exact Hd' |].
    split; [| rewrite Hlen, Hlen1; cbn; lia].
    intros n. rewrite Hlook, fmap_cons.
    destruct (decide (n = name f)) as [-> | Hne].
    + rewrite lookup_delete_eq.
      destruct (decide (name f ∈ name <$> r)); [contradiction |].
      destruct (decide (name f ∈ name f :: (name <$> r))) as [_ | Hnot];
        [reflexivity |].
      exfalso. apply Hnot. left.
    + rewrite lookup_delete_ne by congruence.
      destruct (decide (n ∈ name <$> r)) as [Hin | Hnin];
        destruct (decide (n ∈ name f :: (name <$> r))) as [Hin' | Hnin'];
        try reflexivity.
      * exfalso. apply Hnin'. right. exact Hin.
      * exfalso. apply elem_of_cons in Hin' as [? | ?]; [congruence | contradiction].
Qed.

Lemma archives_names (m : gmap string Z) : NoDup (archives m).*1.
Proof.
  apply NoDup_fmap_2_strong; [| apply NoDup_filter, NoDup_map_to_list].
  intros [n1 t1] [n2 t2] H1 H2 Heq. cbn in Heq. subst n2.
  apply list_elem_of_filter in H1 as [_ H1]. apply list_elem_of_filter in H2 as [_ H2].
  apply elem_of_map_to_list in H1, H2. congruence.
Qed.

Section KeepsMostRecent.
Context (h : host) (dir : string) (p : plugin) (d : gmap string Z).
Hypothesis on_disk : disk p !! dir = Some d.
Hypothesis io_ok : forall n t, d !! n = Some t -> isZip n ->
  stat_ok h dir n = true /\ unlink_ok h dir n = true.
Hypothesis distinct_times : forall n1 n2 t,
  d !! n1 = Some t -> d !! n2 = Some t -> isZip n1 -> isZip n2 -> n1 = n2.

Local Abbreviation record := (fun e : string * Z => mkBackupFile e.1 (dir, e.1) e.2).
Local Abbreviation backupFiles := (record <$> archives d).
Local Abbreviation sorted := (sort by_time backupFiles).

Lemma elem_of_archives (e : string * Z) :
  e ∈ archives d <-> d !! e.1 = Some e.2 /\ isZip e.1.
Proof.
  unfold archives. rewrite list_elem_of_filter, elem_of_map_to_list'. tauto.
Qed.

Lemma elem_of_sorted (f : BackupFile) :
  f ∈ sorted <-> exists n t, f = record (n, t) /\ d !! n = Some t /\ isZip n.
Proof.
  rewrite sort_perm, list_elem_of_fmap. split.
  - intros ([n t] & -> & He). apply elem_of_archives in He. eauto.
  - intros (n & t & -> & Hl & Hz). exists (n, t). split; [reflexivity |].
    apply elem_of_archives. auto.
Qed.

Lemma archives_names_NoDup : NoDup (name <$> sorted).
Proof.
  rewrite sort_perm, <- list_fmap_compose.
  apply NoDup_fmap_2_strong; [| apply NoDup_filter, NoDup_map_to_list].
  intros [n1 t1] [n2 t2] H1 H2 Heq. cbn in Heq. subst n2.
  apply elem_of_archives in H1 as [H1 _]. apply elem_of_archives in H2 as [H2 _].
  cbn in *. congruence.
Qed.

Lemma archives_times_NoDup : NoDup (time <$> sorted).
Proof.
  rewrite sort_perm, <- list_fmap_compose.
  apply NoDup_fmap_2_strong; [| apply NoDup_filter, NoDup_map_to_list].
  intros [n1 t1] [n2 t2] H1 H2 Heq. cbn in Heq. subst t2.
  apply elem_of_archives in H1 as [H1 Hz1]. apply elem_of_archives in H2 as [H2 Hz2].
  cbn in *. f_equal. eapply distinct_times; eassumption.
Qed.

Lemma sorted_strictly : StronglySorted (fun a b => time b < time a) sorted.
Proof.
  apply sorted_distinct_strict; [apply sort_sorted | apply archives_times_NoDup].
Qed.

Lemma length_sorted : length sorted = length (archives d).
Proof. rewrite sort_perm, length_fmap. reflexivity. Qed.

Lemma newer_archives_sorted (t : Z) :
  newer_archives d t = length (filter (fun g => t < time g) sorted).
Proof.
  rewrite sort_perm. unfold newer_archives.
  induction (archives d) as [| e r IH]; [reflexivity |].
  rewrite fmap_cons, !filter_cons. cbn.
  destruct (decide (t < e.2)); cbn; rewrite IH; reflexivity.
Qed.

(** An archive is at the position that counts the archives newer than
    it. *)
Lemma position_of_archive (n : string) (t : Z) :
  d !! n = Some t -> isZip n ->
  sorted !! newer_archives d t = Some (record (n, t)).
Proof.
  intros Hl Hz.
  assert (Hin : record (n, t) ∈ sorted) by (apply elem_of_sorted; eauto).
  apply list_elem_of_lookup_1 in Hin as [i Hi].
  pose proof (newer_count_is_index sorted sorted_strictly i _ Hi) as Hcount.
  cbn in Hcount. rewrite newer_archives_sorted, Hcount. exact Hi.
Qed.

Lemma name_in_part (part : list BackupFile) (n : string) (t : Z) :
  part ⊆ sorted -> d !! n = Some t ->
  n ∈ name <$> part <-> record (n, t) ∈ part.
Proof.
  intros Hsub Hl. split.
  - intros (g & -> & Hg)%list_elem_of_fmap.
    destruct (proj1 (elem_of_sorted g) (Hsub g Hg)) as (n' & t' & -> & Hl' & _).
    cbn in Hl. assert (t' = t) by congruence. subst t'. exact Hg.
  - intros Hin. apply (list_elem_of_fmap_2 name) in Hin. exact Hin.
Qed.

(** The files beyond the first [k] are those with at least [k] newer
    archives. *)
Lemma dropped_iff (k : nat) (n : string) (t : Z) :
  d !! n = Some t -> isZip n ->
  n ∈ name <$> drop k sorted <-> (k <= newer_archives d t)%nat.
Proof.
  intros Hl Hz.
  rewrite (name_in_part (drop k sorted) n t (subseteq_drop k sorted) Hl).
  pose proof (position_of_archive n t Hl Hz) as Hpos.
  assert (Hnd : NoDup sorted) by (eapply NoDup_fmap_1, archives_names_NoDup).
  rewrite list_elem_of_lookup. setoid_rewrite lookup_drop. split.
  - intros [j Hj].
    rewrite (NoDup_lookup sorted _ _ _ Hnd Hpos Hj). lia.
  - intros Hle. exists (newer_archives d t - k)%nat.
    replace (k + (newer_archives d t - k))%nat with (newer_archives d t) by lia.
    exact Hpos.
Qed.

Lemma taken_iff (k : nat) (n : string) (t : Z) :
  d !! n = Some t -> isZip n ->
  n ∈ name <$> take k sorted <-> (newer_archives d t < k)%nat.
Proof.
  intros Hl Hz.
  rewrite (name_in_part (take k sorted) n t (subseteq_take k sorted) Hl).
  pose proof (position_of_archive n t Hl Hz) as Hpos.
  assert (Hnd : NoDup sorted) by (eapply NoDup_fmap_1, archives_names_NoDup).
  rewrite elem_of_take. split.
  - intros (j & Hj & Hlt).
    rewrite (NoDup_lookup sorted _ _ _ Hnd Hpos Hj). exact Hlt.
  - intros Hlt. eauto.
Qed.

(** C8. In a directory that can be listed, whose archives have distinct
    modification times and can be examined and deleted, a keep-count
    between 0 and the number of archives leaves exactly the archives with
    fewer than keep-count newer ones, that is the keep-count most recent;
    the others are deleted, one [unlink] each, and files that are not
    archives stay. *)
Theorem cleanDirectory_keeps_most_recent (keepCount : Z) :
  0 < keepCount < Z.of_nat (length (archives d)) ->
  disk (cleanDirectory h dir keepCount p) !! dir = Some (most_recent keepCount d)
  /\ length (archives (most_recent keepCount d)) = Z.to_nat keepCount
  /\ length (fs_trace (cleanDirectory h dir keepCount p))
     = (length (fs_trace p) + (length (archives d) - Z.to_nat keepCount))%nat.
Proof.
  intros Hk. set (k := Z.to_nat keepCount).
  assert (Hrun : cleanDirectory h dir keepCount p
                 = foldl (deleteOne h) p (drop k sorted)).
  { unfold cleanDirectory, readdir. rewrite on_disk. cbn.
    rewrite (statAll_ok h p dir d (map_to_list d) on_disk).
    - unfold slice. fold (archives d). rewrite length_sorted.
      destruct (Z.ltb_spec keepCount 0); [lia |].
      rewrite Z.min_l by lia. reflexivity.
    - intros e He. apply elem_of_map_to_list' in He. split; [exact He |].
      intros Hz. eapply io_ok; eauto. }
  destruct (deleteAll_ok h dir (drop k sorted) p d on_disk)
    as (d' & Hd' & Hlook & Hlen).
  { rewrite fmap_drop.
    eapply sublist_NoDup; [apply archives_names_NoDup | apply sublist_drop]. }
  { apply Forall_forall. intros f Hf. apply subseteq_drop in Hf.
    apply elem_of_sorted in Hf as (n & t & -> & Hl & Hz). cbn.
    split; [reflexivity |]. split; [eapply io_ok; eauto | eauto]. }
  assert (Heq : d' = most_recent keepCount d).
  { apply map_eq. intros n. apply option_eq. intros t.
    unfold most_recent. rewrite map_lookup_filter_Some, Hlook. cbn.
    destruct (decide (n ∈ name <$> drop k sorted)) as [Hin | Hnin].
    - split; [discriminate |]. intros [Hl Hp]. exfalso.
      assert (Hz : isZip n).
      { apply list_elem_of_fmap in Hin as (g & -> & Hg).
        apply subseteq_drop in Hg.
        apply elem_of_sorted in Hg as (n' & t' & -> & _ & Hz). exact Hz. }
      apply (dropped_iff k n t Hl Hz) in Hin. specialize (Hp Hz). lia.
    - split; [| tauto].
      intros Hl. split; [exact Hl |]. intros Hz.
      destruct (le_lt_dec k (newer_archives d t)) as [Hle | Hlt]; [| lia].
      exfalso. apply Hnin. apply (dropped_iff k n t Hl Hz). exact Hle. }
  rewrite Hrun, Hd', Hlen, length_drop, length_sorted, <- Heq.
  split; [reflexivity |]. split; [| reflexivity].
  assert (Hperm : (archives d').*1 ≡ₚ name <$> take k sorted).
  { apply NoDup_Permutation; [apply archives_names | |].
    - rewrite fmap_take.
      eapply sublist_NoDup; [apply archives_names_NoDup | apply sublist_take].
    - intros n. split.
      + intros ([n' t] & -> & He)%list_elem_of_fmap. cbn.
        apply list_elem_of_filter in He as [Hz He]. cbn in Hz.
        apply elem_of_map_to_list in He. rewrite Heq in He.
        apply map_lookup_filter_Some in He as [Hl Hp]. cbn in Hp.
        apply (taken_iff k n' t Hl Hz). specialize (Hp Hz). lia.
      + intros Hin.
        assert (Hs : exists t, d !! n = Some t /\ isZip n).
        { apply list_elem_of_fmap in Hin as (g & -> & Hg).
          apply subseteq_take in Hg.
          apply elem_of_sorted in Hg as (n' & t' & -> & Hl & Hz). eauto. }
        destruct Hs as (t & Hl & Hz).
        apply (taken_iff k n t Hl Hz) in Hin.
        apply list_elem_of_fmap. exists (n, t). split; [reflexivity |].
        apply list_elem_of_filter. split; [exact Hz |].
        apply elem_of_map_to_list. rewrite Heq.
        apply map_lookup_filter_Some. split; [exact Hl |]. cbn. intros _. lia. }
  apply Permutation_length in Hperm. rewrite !length_fmap in Hperm.
  rewrite Hperm, length_take_le; [reflexivity |].
  rewrite length_sorted. lia.
Qed.
End KeepsMostRecent.

(** Distinct modification times, from a listing checked entry by entry. *)
Lemma distinct_times_of_listing (d : gmap string Z) :
  NoDup (map_to_list d).*2 ->
  forall n1 n2 t, d !! n1 = Some t -> d !! n2 = Some t -> n1 = n2.
Proof.
  intros Hnd n1 n2 t H1 H2.
  apply elem_of_map_to_list, list_elem_of_lookup_1 in H1 as [i Hi].
  apply elem_of_map_to_list, list_elem_of_lookup_1 in H2 as [j Hj].
  assert (Hti : (map_to_list d).*2 !! i = Some t)
    by (rewrite list_lookup_fmap, Hi; reflexivity).
  assert (Htj : (map_to_list d).*2 !! j = Some t)
    by (rewrite list_lookup_fmap, Hj; reflexivity).
  pose proof (NoDup_lookup _ _ _ _ Hnd Hti Htj) as ->.
  congruence.
Qed.

Lemma cleanDirectory_keeps_two_of_five :
  disk five_archives_plugin !! "/backups" = Some five_archives
  /\ length (archives five_archives) = 5%nat
  /\ disk (cleanDirectory quiet_host "/backups" 2 five_archives_plugin) !! "/backups"
     = Some (most_recent 2 five_archives)
  /\ most_recent 2 five_archives
     = {[ "thu.zip" := 400; "fri.zip" := 500; "notes.txt" := 50 ]}.
Proof.
  split; [reflexivity |]. split; [vm_compute; reflexivity |].
  split; [| vm_compute; reflexivity].
  apply (cleanDirectory_keeps_most_recent quiet_host "/backups"
           five_archives_plugin five_archives).
  - reflexivity.
  - intros n t _ _. split; reflexivity.
  - intros n1 n2 t H1 H2 _ _.
    apply (distinct_times_of_listing five_archives) with t; [| exact H1 | exact H2].
    apply (bool_decide_unpack _). vm_compute. exact I.
  - vm_compute. split; reflexivity.
Defined.

(** * Further properties *)

(** ** What a backup never undoes *)

Lemma only_grows_refl (p : plugin) : only_grows p p.
Proof. split; reflexivity. Qed.

Lemma only_grows_trans (p q r : plugin) :
  only_grows p q -> only_grows q r -> only_grows p r.
Proof.
  intros [] []. split; try congruence; try lia; etransitivity; eassumption.
Qed.

Lemma same_but_log_grows (p q : plugin) :
  same_but_log p q ->
  notices p `prefix_of` notices q -> console p `prefix_of` console q ->
  only_grows p q.
Proof.
  intros [Hs ? ? Hc ? Ht ?] Hn Hl.
  split; try (rewrite Hs; reflexivity); try assumption.
  - lia.
  - rewrite Ht. reflexivity.
Qed.

Lemma same_but_disk_grows (p q : plugin) :
  same_but_disk p q ->
  fs_trace p `prefix_of` fs_trace q -> console p `prefix_of` console q ->
  only_grows p q.
Proof.
  intros [Hs ? ? Hc ? Hn] Ht Hl.
  split; try (rewrite Hs; reflexivity); try assumption.
  - lia.
  - rewrite Hn. reflexivity.
Qed.

Lemma growing_ret {A} (a : A) : growing (ret a).
Proof. intros p. apply only_grows_refl. Qed.

Lemma growing_throw {A} (e : error) : growing (@throw A e).
Proof. intros p. apply only_grows_refl. Qed.

Lemma growing_get {A} (f : plugin -> A) : growing (get f).
Proof. intros p. apply only_grows_refl. Qed.

Lemma growing_lift (f : plugin -> plugin) :
  (forall p, only_grows p (f p)) -> growing (lift f).
Proof. intros Hf p. apply Hf. Qed.

Lemma growing_bind {A B} (m : M A) (k : A -> M B) :
  growing m -> (forall a, growing (k a)) -> growing (bind m k).
Proof.
  intros Hm Hk p. unfold bind. specialize (Hm p).
  destruct (m p) as [[a | e] q]; cbn in *; [| exact Hm].
  eapply only_grows_trans; [exact Hm | apply Hk].
Qed.

Lemma growing_try_catch {A} (m : M A) (handler : error -> M A) :
  growing m -> (forall e, growing (handler e)) -> growing (try_catch m handler).
Proof.
  intros Hm Hh p. unfold try_catch. specialize (Hm p).
  destruct (m p) as [[a | e] q]; cbn in *; [exact Hm |].
  eapply only_grows_trans; [exact Hm | apply Hh].
Qed.

Lemma growing_try_finally {A} (m : M A) (cleanup : plugin -> plugin) :
  growing m -> (forall p, only_grows p (cleanup p)) ->
  growing (try_finally m cleanup).
Proof.
  intros Hm Hc p. unfold try_finally. specialize (Hm p).
  destruct (m p) as [r q]; cbn in *.
  eapply only_grows_trans; [exact Hm | apply Hc].
Qed.

Lemma show_grows (n : notice) (p : plugin) : only_grows p (show n p).
Proof. split; try reflexivity. cbn. eexists; reflexivity. Qed.

Lemma print_grows (ls : list console_line) (p : plugin) : only_grows p (print ls p).
Proof. split; try reflexivity. cbn. eexists; reflexivity. Qed.

Lemma sleep_grows (ms : Z) (p : plugin) : 0 <= ms -> only_grows p (sleep ms p).
Proof. intros Hms. split; try reflexivity. cbn. lia. Qed.

Lemma set_disk_grows (x : gmap string (gmap string Z)) (ev : fs_event) (p : plugin) :
  only_grows p (set_disk x ev p).
Proof. split; try reflexivity. cbn. eexists; reflexivity. Qed.

Lemma set_flag_grows (b : bool) (p : plugin) :
  only_grows p (set_isBackupInProgress b p).
Proof. split; reflexivity. Qed.

Lemma growing_addVaultFiles (files : list (string * option string))
    (totalFiles processedFiles : nat) (zip : AdmZip) :
  growing (addVaultFiles files totalFiles processedFiles zip).
Proof.
  revert processedFiles zip.
  induction files as [| [file_path [content |]] r IH]; intros processedFiles zip; cbn.
  - apply growing_ret.
  - apply growing_bind; [apply growing_lift, show_grows | intros _; apply IH].
  - apply growing_throw.
Qed.

Lemma growing_buildArchive (h : host) : growing (buildArchive h).
Proof.
  unfold buildArchive.
  apply growing_bind; [apply growing_addVaultFiles | intros zip].
  apply growing_bind; [apply growing_lift, show_grows | intros _].
  intros p. destruct (addFolderToZip _ _ _) as [w [e |]]; cbn.
  - eapply only_grows_trans; [apply print_grows | apply show_grows].
  - apply print_grows.
Qed.

Lemma growing_ensureBackupDir (h : host) (dir : string) :
  growing (ensureBackupDir h dir).
Proof.
  unfold ensureBackupDir. destruct (mkdir h dir).
  - apply growing_lift. intros p.
    destruct (disk p !! dir); [apply only_grows_refl | apply set_disk_grows].
  - apply growing_ret.
  - apply growing_throw.
Qed.

Lemma growing_cleanOldBackups (h : host) : growing (cleanOldBackups h).
Proof.
  intros p. unfold cleanOldBackups.
  destruct (_ <=? 0); [apply only_grows_refl |].
  destruct (if JsString.isEmpty _ then _ else _) as [dir |]; [| apply only_grows_refl].
  set (p1 := cleanDirectory h dir _ p).
  assert (H1 : only_grows p p1).
  { apply same_but_disk_grows;
      [apply cleanDirectory_frame | apply cleanDirectory_grows ..]. }
  destruct (isConfigured _); cbn; [| exact H1].
  eapply only_grows_trans; [exact H1 |].
  apply same_but_disk_grows;
    [apply cleanDirectory_frame | apply cleanDirectory_grows ..].
Qed.

Lemma copyToSecondary_grows (h : host) (zipName : string) (p : plugin) :
  only_grows p (copyToSecondary h zipName p).
Proof.
  unfold copyToSecondary. destruct (isConfigured _); [| apply only_grows_refl].
  destruct (_ && _)%bool.
  - apply set_disk_grows.
  - eapply only_grows_trans; [apply print_grows | apply show_grows].
Qed.

Lemma growing_storeArchive (h : host) (zip : AdmZip) : growing (storeArchive h zip).
Proof.
  unfold storeArchive.
  apply growing_bind; [apply growing_get | intros now].
  apply growing_bind; [apply growing_get | intros s].
  apply growing_bind.
  { destruct (JsString.isEmpty _); [apply growing_ret | apply growing_ensureBackupDir]. }
  intros _. apply growing_bind; [apply growing_get | intros s'].
  apply growing_bind.
  { unfold writeZip. destruct (writeZip_ok _ _ _); [| apply growing_throw].
    apply growing_lift. intros p. apply set_disk_grows. }
  intros _. apply growing_bind; [apply growing_lift, copyToSecondary_grows | intros _].
  apply growing_bind.
  { apply growing_lift. intros p. split; try reflexivity. }
  intros _. apply growing_bind.
  { unfold saveSettings. destruct (saveData_ok h); [| apply growing_throw].
    apply growing_lift. intros p. split; reflexivity. }
  intros _. apply growing_bind; [apply growing_cleanOldBackups | intros _].
  apply growing_bind; [apply growing_lift, show_grows | intros _].
  apply growing_bind; [apply growing_lift; intros p; apply sleep_grows; lia | intros _].
  apply growing_lift, show_grows.
Qed.

Lemma growing_backup_failed (e : error) : growing (backup_failed e).
Proof.
  unfold backup_failed.
  apply growing_bind; [apply growing_lift, show_grows | intros _].
  apply growing_bind; [apply growing_lift; intros p; apply sleep_grows; lia | intros _].
  apply growing_bind; [apply growing_lift, show_grows | intros _].
  apply growing_lift, print_grows.
Qed.

Lemma createBackup_resume_grows (h : host) (p : plugin) :
  only_grows p (createBackup_resume h p).
Proof.
  unfold createBackup_resume.
  apply (growing_try_finally
           (try_catch (backup h) backup_failed) (set_isBackupInProgress false)).
  - apply growing_try_catch; [| apply growing_backup_failed].
    unfold backup. apply growing_bind;
      [apply growing_buildArchive | apply growing_storeArchive].
  - apply set_flag_grows.
Qed.

(** X1. Whatever its outcome, a call of [createBackup] changes no setting but
    [lastBackupTime], leaves the schedule alone, and only adds to what was
    shown, logged and done on disk. *)
Theorem createBackup_only_grows (h : host) (p : plugin) :
  only_grows p (createBackup h p).
Proof.
  unfold createBackup, createBackup_enter.
  destruct (isBlank _); [apply show_grows |].
  eapply only_grows_trans; [| apply createBackup_resume_grows].
  eapply only_grows_trans; [| apply sleep_grows; lia].
  eapply only_grows_trans; [apply set_flag_grows | apply show_grows].
Qed.

(** ** Runs that fail *)

Lemma addVaultFiles_unreadable (before after : list (string * option string))
    (file_path : string) (totalFiles processedFiles : nat) (zip : AdmZip)
    (p : plugin) :
  Forall (fun f => is_Some f.2) before ->
  exists q,
    addVaultFiles (before ++ (file_path, None) :: after) totalFiles processedFiles zip p
    = (Throw (VaultReadError file_path), q)
    /\ same_but_log p q
    /\ notices q = notices p ++ progress (length before) totalFiles processedFiles.
Proof.
  intros Hall. revert processedFiles zip p.
  induction Hall as [| [fp read] r [content Hread] _ IH]; intros processedFiles zip p.
  - exists p. cbn. rewrite List.app_nil_r. repeat split.
  - cbn in Hread. subst read. cbn.
    destruct (IH (S processedFiles) (addFile fp (Buffer_from content) zip)
                 (show (AddingFiles (S processedFiles) totalFiles) p))
      as (q & Hrun & Hsame & Hn).
    exists q. unfold bind, lift. rewrite Hrun.
    split; [reflexivity |].
    split; [destruct Hsame; split; assumption |].
    rewrite Hn. cbn. rewrite <- List.app_assoc. reflexivity.
Qed.

(** X2. A vault file that cannot be read ends the run before anything is
    written: the progress up to that file and the failure are shown, and
    the disk, the settings and what is persisted stay as they were. *)
Theorem vault_read_failure_is_fatal (h : host) (p : plugin)
    (before after : list (string * option string)) (file_path : string) :
  isBlank (backupPath (settings p)) = false ->
  getFiles h = before ++ (file_path, None) :: after ->
  Forall (fun f => is_Some f.2) before ->
  notices (createBackup h p)
  = notices p ++ [StartingBackup]
    ++ progress (length before) (length (getFiles h)) 0
    ++ [BackupFailed (VaultReadError file_path); Hidden]
  /\ settings (createBackup h p) = settings p
  /\ data_json (createBackup h p) = data_json p
  /\ disk (createBackup h p) = disk p
  /\ fs_trace (createBackup h p) = fs_trace p
  /\ isBackupInProgress (createBackup h p) = false.
Proof.
  intros Hblank Hfiles Hread.
  unfold createBackup, createBackup_enter. rewrite Hblank.
  set (p2 := sleep 2000 (show StartingBackup (set_isBackupInProgress true p))).
  destruct (addVaultFiles_unreadable before after file_path
              (length (getFiles h)) 0 [] p2 Hread) as (q & Hrun & Hsame & Hn).
  unfold createBackup_resume, try_finally, try_catch, backup, bind, buildArchive, bind.
  rewrite <- Hfiles in Hrun. rewrite Hrun. cbn.
  destruct Hsame as [Hs _ _ _ Hd Ht Hj].
  rewrite Hn, Hs, Hd, Ht, Hj. cbn. rewrite <- !List.app_assoc.
  repeat split.
Qed.

(** What the construction of the archive comes to when the vault files
    can be read, whatever the state of the [.obsidian] folder. *)
Lemma buildArchive_result (h : host) (p : plugin) :
  Forall (fun f => is_Some f.2) (getFiles h) ->
  exists q,
    buildArchive h p = (Ok (vault_entries (getFiles h) ++ metadata_entries h), q)
    /\ same_but_log p q
    /\ notices q = notices p
                   ++ progress (length (getFiles h)) (length (getFiles h)) 0
                   ++ metadata_notices h.
Proof.
  intros Hread.
  destruct (addVaultFiles_readable (getFiles h) (length (getFiles h)) 0 [] p Hread)
    as (q & Hrun & Hsame & Hn & Hc).
  unfold buildArchive, bind, lift, metadata_entries, metadata_notices.
  rewrite Hrun. destruct (obsidianFolder h) as [files |]; cbn; eexists.
  - split; [rewrite addEntriesToZip_zip; reflexivity |].
    split; [destruct Hsame; split; assumption |].
    cbn. rewrite Hn, <- List.app_assoc. reflexivity.
  - split; [rewrite List.app_nil_r; reflexivity |].
    split; [destruct Hsame; split; assumption |].
    cbn. rewrite Hn, <- !List.app_assoc. reflexivity.
Qed.

(** X3. When the backup directory cannot be created, for a reason other than
    its existing already, the run ends there: the failure is shown, no
    archive is written and nothing on disk or in the settings changes. *)
Theorem mkdir_failure_is_fatal (h : host) (p : plugin) :
  isBlank (backupPath (settings p)) = false ->
  Forall (fun f => is_Some f.2) (getFiles h) ->
  mkdir h (backupDir h (settings p)) = MkdirFails ->
  notices (createBackup h p)
  = notices p ++ [StartingBackup]
    ++ progress (length (getFiles h)) (length (getFiles h)) 0
    ++ metadata_notices h
    ++ [BackupFailed (MkdirError (backupDir h (settings p))); Hidden]
  /\ settings (createBackup h p) = settings p
  /\ data_json (createBackup h p) = data_json p
  /\ disk (createBackup h p) = disk p
  /\ fs_trace (createBackup h p) = fs_trace p
  /\ isBackupInProgress (createBackup h p) = false.
Proof.
  intros Hblank Hread Hmk.
  unfold createBackup, createBackup_enter. rewrite Hblank.
  set (p2 := sleep 2000 (show StartingBackup (set_isBackupInProgress true p))).
  destruct (buildArchive_result h p2 Hread) as (q & Hb & Hsame & Hn).
  destruct Hsame as [Hs _ _ _ Hd Ht Hj].
  unfold createBackup_resume, try_finally, try_catch, backup, bind.
  rewrite Hb. unfold storeArchive, bind, get. rewrite Hs. cbn [settings p2 sleep show set_isBackupInProgress set_Date_now].
  rewrite (isBlank_isEmpty _ Hblank), (ensured_is_backupDir h (settings p)
                                         (isBlank_isEmpty _ Hblank)).
  unfold ensureBackupDir. rewrite Hmk. unfold throw. cbn.
  rewrite Hn, Hs, Hd, Ht, Hj. cbn. rewrite <- !List.app_assoc.
  repeat split.
Qed.

(** ** From the write on *)

(** The steps of [storeArchive] once the backup directory is there and the
    archive can be written. *)
Lemma storeArchive_steps (h : host) (zip : AdmZip) (p q1 : plugin) :
  JsString.isEmpty (backupPath (settings p)) = false ->
  ensureBackupDir h (backupDir h (settings p)) p = (Ok tt, q1) ->
  settings q1 = settings p ->
  writeZip_ok h (backupDir h (settings p)) (zipName h (Date_now p)) = true ->
  storeArchive h zip p
  = let dir := backupDir h (settings p) in
    let zn := zipName h (Date_now p) in
    let q3 := copyToSecondary h zn (put_file dir zn (WroteZip dir zn zip) q1) in
    let q4 := set_settings (set_lastBackupTime (Date_now q3) (settings q3)) q3 in
    if saveData_ok h then
      match cleanOldBackups h (set_data_json (Some (settings q4)) q4) with
      | (Ok _, q6) => (Ok tt, show Hidden (sleep 2000 (show BackupCreated q6)))
      | (Throw e, q6) => (Throw e, q6)
      end
    else (Throw SaveDataError, q4).
Proof.
  intros Hne Hrun Hs Hw.
  unfold storeArchive, bind, get. rewrite Hne.
  rewrite (ensured_is_backupDir h (settings p) Hne), Hrun.
  rewrite getBackupPath_backupDir. unfold writeZip. cbn [fst snd].
  rewrite Hs, Hw. unfold lift, saveSettings. cbn zeta.
  destruct (saveData_ok h); [| reflexivity].
  unfold lift. destruct (cleanOldBackups h _) as [[[] | e] q6]; reflexivity.
Qed.

Lemma deleteAll_only_unlinks (h : host) (files : list BackupFile) (p : plugin) :
  exists k, fs_trace (foldl (deleteOne h) p files) = fs_trace p ++ k
            /\ Forall is_unlink k.
Proof.
  revert p. induction files as [| f r IH]; intros p; cbn.
  - exists []. rewrite List.app_nil_r. split; [reflexivity | constructor].
  - destruct (IH (deleteOne h p f)) as (k & Hk & Hall). rewrite Hk.
    unfold deleteOne, unlink.
    destruct (unlink_ok h _ _); [| exists k; split; [reflexivity | exact Hall]].
    destruct (disk p !! _) as [d |]; [| exists k; split; [reflexivity | exact Hall]].
    cbn. destruct (d !! _); cbn; [| exists k; split; [reflexivity | exact Hall]].
    exists (Unlinked (path f).1 (path f).2 :: k).
    split; [rewrite <- List.app_assoc; reflexivity |].
    constructor; [exact I | exact Hall].
Qed.

Lemma cleanDirectory_only_unlinks (h : host) (dir : string) (n : Z) (p : plugin) :
  exists k, fs_trace (cleanDirectory h dir n p) = fs_trace p ++ k
            /\ Forall is_unlink k.
Proof.
  unfold cleanDirectory.
  destruct (readdir p dir);
    [| exists []; rewrite List.app_nil_r; split; [reflexivity | constructor]].
  destruct (mapM _ _);
    [| exists []; rewrite List.app_nil_r; split; [reflexivity | constructor]].
  apply deleteAll_only_unlinks.
Qed.

Lemma cleanOldBackups_only_unlinks (h : host) (p : plugin) :
  exists k, fs_trace (cleanOldBackups h p).2 = fs_trace p ++ k
            /\ Forall is_unlink k.
Proof.
  unfold cleanOldBackups.
  destruct (_ <=? 0);
    [exists []; rewrite List.app_nil_r; split; [reflexivity | constructor] |].
  destruct (if JsString.isEmpty _ then _ else _) as [dir |];
    [| exists []; rewrite List.app_nil_r; split; [reflexivity | constructor]].
  destruct (cleanDirectory_only_unlinks h dir (maxBackupCount (settings p)) p)
    as (k1 & Hk1 & Hall1).
  set (p1 := cleanDirectory h dir _ p) in *.
  destruct (isConfigured _); cbn; [| eauto].
  destruct (cleanDirectory_only_unlinks h (secondaryBackupPath (settings p1))
              (secondaryMaxBackupCount (settings p1)) p1) as (k2 & Hk2 & Hall2).
  exists (k1 ++ k2). rewrite Hk2, Hk1, <- List.app_assoc.
  split; [reflexivity | apply Forall_app; auto].
Qed.

(** A run whose vault files can be read, whose backup directory is there or
    can be made, and whose archive can be written, up to the write and from
    the write on. *)
Lemma createBackup_written (h : host) (p : plugin) :
  isBlank (backupPath (settings p)) = false ->
  Forall (fun f => is_Some f.2) (getFiles h) ->
  mkdir h (backupDir h (settings p)) ≠ MkdirFails ->
  writeZip_ok h (backupDir h (settings p)) (zipName h (Date_now p + 2000)) = true ->
  exists q1,
    (settings q1 = settings p
     /\ data_json q1 = data_json p
     /\ Date_now q1 = Date_now p + 2000
     /\ notices q1 = notices p ++ [StartingBackup]
                     ++ progress (length (getFiles h)) (length (getFiles h)) 0
                     ++ metadata_notices h
     /\ (fs_trace q1 = fs_trace p
         \/ fs_trace q1 = fs_trace p ++ [MadeDir (backupDir h (settings p))])
     /\ (forall other, other ≠ backupDir h (settings p) ->
           disk q1 !! other = disk p !! other))
    /\ createBackup h p
       = set_isBackupInProgress false
           (let dir := backupDir h (settings p) in
            let zn := zipName h (Date_now p + 2000) in
            let zip := vault_entries (getFiles h) ++ metadata_entries h in
            let q3 := copyToSecondary h zn (put_file dir zn (WroteZip dir zn zip) q1) in
            let q4 := set_settings (set_lastBackupTime (Date_now q3) (settings q3)) q3 in
            if saveData_ok h then
              match cleanOldBackups h (set_data_json (Some (settings q4)) q4) with
              | (Ok _, q6) => show Hidden (sleep 2000 (show BackupCreated q6))
              | (Throw e, q6) => (backup_failed e q6).2
              end
            else (backup_failed SaveDataError q4).2).
Proof.
  intros Hblank Hread Hmk Hw.
  unfold createBackup, createBackup_enter. rewrite Hblank.
  set (p2 := sleep 2000 (show StartingBackup (set_isBackupInProgress true p))).
  destruct (buildArchive_result h p2 Hread) as (q & Hb & Hlog & Hn).
  assert (Hs : settings q = settings p) by apply Hlog.
  assert (Hd : Date_now q = Date_now p + 2000) by apply Hlog.
  destruct (ensureBackupDir_effect h (backupDir h (settings q)) q)
    as (q1 & Hrun & Hsame & Hc & Ht & Hdisk).
  { rewrite Hs. exact Hmk. }
  exists q1. split.
  { split; [rewrite (sbd_settings _ _ Hsame); exact Hs |].
    split; [rewrite (sbd_data _ _ Hsame); apply Hlog |].
    split; [rewrite (sbd_clock _ _ Hsame); exact Hd |].
    split; [rewrite (sbd_notices _ _ Hsame), Hn; cbn;
            rewrite <- !List.app_assoc; reflexivity |].
    rewrite Hs in Ht, Hdisk. rewrite (sbl_trace _ _ Hlog) in Ht.
    split; [exact Ht |].
    intros other Hne. rewrite (Hdisk other Hne), (sbl_disk _ _ Hlog). reflexivity. }
  unfold createBackup_resume, try_finally, try_catch, backup, bind. rewrite Hb.
  rewrite (storeArchive_steps h _ q q1).
  - rewrite Hs, Hd. cbn zeta.
    destruct (saveData_ok h); [| reflexivity].
    destruct (cleanOldBackups h _) as [[[] | e] q6]; reflexivity.
  - rewrite Hs. apply isBlank_isEmpty. exact Hblank.
  - exact Hrun.
  - apply Hsame.
  - rewrite Hs, Hd. exact Hw.
Qed.

(** ** Runs that succeed *)

Lemma successful_run (h : host) (p : plugin) :
  isBlank (backupPath (settings p)) = false ->
  Forall (fun f => is_Some f.2) (getFiles h) ->
  mkdir h (backupDir h (settings p)) ≠ MkdirFails ->
  writeZip_ok h (backupDir h (settings p)) (zipName h (Date_now p + 2000)) = true ->
  saveData_ok h = true ->
  (exists warned,
     notices (createBackup h p)
     = notices p ++ [StartingBackup]
       ++ progress (length (getFiles h)) (length (getFiles h)) 0
       ++ metadata_notices h ++ warned ++ [BackupCreated; Hidden]
     /\ (warned = [] \/ warned = [SecondaryFolderMissing]))
  /\ WroteZip (backupDir h (settings p)) (zipName h (Date_now p + 2000))
              (vault_entries (getFiles h) ++ metadata_entries h)
     ∈ fs_trace (createBackup h p)
  /\ settings (createBackup h p)
     = set_lastBackupTime (Date_now p + 2000) (settings p)
  /\ data_json (createBackup h p) = Some (settings (createBackup h p))
  /\ isBackupInProgress (createBackup h p) = false
  /\ Date_now (createBackup h p) = Date_now p + 4000.
Proof.
  intros Hblank Hread Hmk Hw Hsave.
  destruct (createBackup_written h p Hblank Hread Hmk Hw)
    as (q1 & (Hs1 & Hj1 & Hd1 & Hn1 & Ht1 & Hdisk1) & Heq).
  rewrite Heq, Hsave. clear Heq. cbn zeta.
  set (dir := backupDir h (settings p)).
  set (zn := zipName h (Date_now p + 2000)).
  set (zip := vault_entries (getFiles h) ++ metadata_entries h).
  set (q2 := put_file dir zn (WroteZip dir zn zip) q1).
  destruct (copyToSecondary_effect h zn q2)
    as (warned & Hn3 & Hwarned & Hs3 & Hf3 & Hd3 & Ht3 & Hc3).
  set (q3 := copyToSecondary h zn q2) in *.
  set (q5 := set_data_json _ _).
  destruct (cleanOldBackups_returns h q5) as (q6 & Hclean & Hsame6 & Ht6 & Hc6).
  { subst q5. cbn. rewrite Hs3. subst q2. cbn. rewrite Hs1.
    apply isBlank_isEmpty. exact Hblank. }
  rewrite Hclean. cbn.
  split; [| split; [| split; [| split; [| split]]]].
  - exists warned. split; [| exact Hwarned].
    rewrite (sbd_notices _ _ Hsame6). subst q5. cbn. rewrite Hn3. subst q2. cbn.
    rewrite Hn1, <- !List.app_assoc. reflexivity.
  - destruct Ht3 as [k3 Hk3]. destruct Ht6 as [k6 Hk6].
    rewrite Hk6. subst q5. cbn. rewrite Hk3. subst q2. cbn.
    apply elem_of_app. left. apply elem_of_app. left.
    apply elem_of_app. right. apply list_elem_of_here.
  - rewrite (sbd_settings _ _ Hsame6). subst q5. cbn.
    rewrite Hs3, Hd3. subst q2. cbn. rewrite Hs1, Hd1. reflexivity.
  - rewrite (sbd_data _ _ Hsame6), (sbd_settings _ _ Hsame6). reflexivity.
  - reflexivity.
  - rewrite (sbd_clock _ _ Hsame6). subst q5. cbn. rewrite Hd3. subst q2. cbn.
    rewrite Hd1. lia.
Qed.


(** X5. When the [.obsidian] folder itself cannot be listed the run still gets
    through: the archive holds the vault files only, and the user is told
    the backup is partial before being told it was created. *)
Theorem unlistable_metadata_folder_is_partial (h : host) (p : plugin) :
  isBlank (backupPath (settings p)) = false ->
  Forall (fun f => is_Some f.2) (getFiles h) ->
  obsidianFolder h = None ->
  mkdir h (backupDir h (settings p)) ≠ MkdirFails ->
  writeZip_ok h (backupDir h (settings p)) (zipName h (Date_now p + 2000)) = true ->
  saveData_ok h = true ->
  WroteZip (backupDir h (settings p)) (zipName h (Date_now p + 2000))
           (vault_entries (getFiles h))
    ∈ fs_trace (createBackup h p)
  /\ (exists warned,
        notices (createBackup h p)
        = notices p ++ [StartingBackup]
          ++ progress (length (getFiles h)) (length (getFiles h)) 0
          ++ [VerifyingBackup; PartialObsidianFolder]
          ++ warned ++ [BackupCreated; Hidden]
        /\ (warned = [] \/ warned = [SecondaryFolderMissing]))
  /\ reports_partial (createBackup h p).
Proof.
  intros Hblank Hread Hnone Hmk Hw Hsave.
  destruct (successful_run h p Hblank Hread Hmk Hw Hsave)
    as ((warned & Hn & Hwarned) & Hin & _).
  unfold metadata_entries, metadata_notices in *. rewrite Hnone in *.
  rewrite List.app_nil_r in Hin.
  split; [exact Hin |]. split; [exists warned; split; assumption |].
  unfold reports_partial. rewrite Hn.
  apply elem_of_app. right. apply elem_of_app. right.
  apply elem_of_app. right. apply elem_of_app. left.
  right. apply list_elem_of_here.
Qed.

(** X6. When the copy to a configured secondary location fails the run goes
    on: the failure is logged and shown as "Secondary backup folder does not
    exist", nothing is copied, and the backup is recorded and shown as
    created all the same. *)
Theorem secondary_copy_failure_is_not_fatal (h : host) (p : plugin) :
  isBlank (backupPath (settings p)) = false ->
  Forall (fun f => is_Some f.2) (getFiles h) ->
  mkdir h (backupDir h (settings p)) ≠ MkdirFails ->
  writeZip_ok h (backupDir h (settings p)) (zipName h (Date_now p + 2000)) = true ->
  saveData_ok h = true ->
  isConfigured (secondaryBackupPath (settings p)) = true ->
  copyFile_ok h (secondaryBackupPath (settings p)) (zipName h (Date_now p + 2000))
  = false ->
  notices (createBackup h p)
  = notices p ++ [StartingBackup]
    ++ progress (length (getFiles h)) (length (getFiles h)) 0
    ++ metadata_notices h
    ++ [SecondaryFolderMissing; BackupCreated; Hidden]
  /\ ErrorCreatingSecondaryBackup ∈ console (createBackup h p)
  /\ lastBackupTime (settings (createBackup h p)) = Date_now p + 2000
  /\ data_json (createBackup h p) = Some (settings (createBackup h p))
  /\ (forall dir name, CopiedFile dir name ∈ fs_trace (createBackup h p) ->
        CopiedFile dir name ∈ fs_trace p).
Proof.
  intros Hblank Hread Hmk Hw Hsave Hsec Hcopy.
  destruct (createBackup_written h p Hblank Hread Hmk Hw)
    as (q1 & (Hs1 & Hj1 & Hd1 & Hn1 & Ht1 & Hdisk1) & Heq).
  rewrite Heq, Hsave. clear Heq. cbn zeta.
  set (dir := backupDir h (settings p)) in *.
  set (zn := zipName h (Date_now p + 2000)) in *.
  set (zip := vault_entries (getFiles h) ++ metadata_entries h).
  set (q2 := put_file dir zn (WroteZip dir zn zip) q1).
  assert (Hq3 : copyToSecondary h zn q2
                = show SecondaryFolderMissing (print [ErrorCreatingSecondaryBackup] q2)).
  { unfold copyToSecondary. subst q2. cbn [settings put_file set_disk].
    rewrite Hs1, Hsec, Hcopy. reflexivity. }
  rewrite Hq3.
  set (q5 := set_data_json _ _).
  destruct (cleanOldBackups_returns h q5) as (q6 & Hclean & Hsame6 & Ht6 & Hc6).
  { subst q5 q2. cbn. rewrite Hs1. apply isBlank_isEmpty. exact Hblank. }
  destruct (cleanOldBackups_only_unlinks h q5) as (k & Hk & Hunl).
  rewrite Hclean in Hk |- *. cbn in Hk |- *.
  split; [| split; [| split; [| split]]].
  - rewrite (sbd_notices _ _ Hsame6). subst q5 q2. cbn.
    rewrite Hn1, <- !List.app_assoc. reflexivity.
  - destruct Hc6 as [k6 Hk6]. rewrite Hk6. subst q5 q2. cbn.
    apply elem_of_app. left. apply elem_of_app. right. apply list_elem_of_here.
  - rewrite (sbd_settings _ _ Hsame6). subst q5 q2. cbn. exact Hd1.
  - rewrite (sbd_data _ _ Hsame6), (sbd_settings _ _ Hsame6). reflexivity.
  - intros d n Hin. rewrite Hk in Hin. subst q5 q2. cbn in Hin.
    apply elem_of_app in Hin as [Hin | Hin].
    + apply elem_of_app in Hin as [Hin | Hin].
      * destruct Ht1 as [Ht1 | Ht1]; rewrite Ht1 in Hin; [exact Hin |].
        apply elem_of_app in Hin as [Hin | Hin]; [exact Hin |].
        apply list_elem_of_singleton in Hin. discriminate.
      * apply list_elem_of_singleton in Hin. discriminate.
    + rewrite Forall_forall in Hunl. destruct (Hunl _ Hin).
Qed.

(** X7. When the settings cannot be persisted after the write, the run fails
    with the archive on disk: the failure is shown, [lastBackupTime] has
    moved in memory but not in what is persisted, and no old archive is
    deleted. *)
Theorem save_failure_after_write (h : host) (p : plugin) :
  isBlank (backupPath (settings p)) = false ->
  Forall (fun f => is_Some f.2) (getFiles h) ->
  mkdir h (backupDir h (settings p)) ≠ MkdirFails ->
  writeZip_ok h (backupDir h (settings p)) (zipName h (Date_now p + 2000)) = true ->
  saveData_ok h = false ->
  (exists shown,
     notices (createBackup h p)
     = notices p ++ shown ++ [BackupFailed SaveDataError; Hidden])
  /\ WroteZip (backupDir h (settings p)) (zipName h (Date_now p + 2000))
              (vault_entries (getFiles h) ++ metadata_entries h)
     ∈ fs_trace (createBackup h p)
  /\ lastBackupTime (settings (createBackup h p)) = Date_now p + 2000
  /\ data_json (createBackup h p) = data_json p
  /\ (forall dir name, Unlinked dir name ∈ fs_trace (createBackup h p) ->
        Unlinked dir name ∈ fs_trace p)
  /\ isBackupInProgress (createBackup h p) = false.
Proof.
  intros Hblank Hread Hmk Hw Hsave.
  destruct (createBackup_written h p Hblank Hread Hmk Hw)
    as (q1 & (Hs1 & Hj1 & Hd1 & Hn1 & Ht1 & Hdisk1) & Heq).
  rewrite Heq, Hsave. clear Heq. cbn zeta.
  set (dir := backupDir h (settings p)) in *.
  set (zn := zipName h (Date_now p + 2000)) in *.
  set (zip := vault_entries (getFiles h) ++ metadata_entries h).
  set (q2 := put_file dir zn (WroteZip dir zn zip) q1).
  destruct (copyToSecondary_effect h zn q2)
    as (warned & Hn3 & Hwarned & Hs3 & Hf3 & Hd3 & Ht3 & Hc3).
  assert (Htr : fs_trace (copyToSecondary h zn q2) = fs_trace q2
                \/ exists d n, fs_trace (copyToSecondary h zn q2)
                               = fs_trace q2 ++ [CopiedFile d n]).
  { unfold copyToSecondary. destruct (isConfigured _); [| left; reflexivity].
    destruct (_ && _)%bool; [right; eexists _, _; reflexivity | left; reflexivity]. }
  set (q3 := copyToSecondary h zn q2) in *. cbn.
  split; [| split; [| split; [| split; [| split]]]].
  - exists ([StartingBackup]
            ++ progress (length (getFiles h)) (length (getFiles h)) 0
            ++ metadata_notices h ++ warned).
    rewrite Hn3. subst q2. cbn. rewrite Hn1, <- !List.app_assoc. reflexivity.
  - destruct Ht3 as [k3 Hk3]. rewrite Hk3. subst q2. cbn.
    apply elem_of_app. left. apply elem_of_app. right. apply list_elem_of_here.
  - rewrite Hd3. subst q2. cbn. exact Hd1.
  - unfold q3, copyToSecondary. destruct (isConfigured _); [| exact Hj1].
    destruct (_ && _)%bool; exact Hj1.
  - intros d n Hin.
    assert (Hin2 : Unlinked d n ∈ fs_trace q2).
    { destruct Htr as [Htr | (d' & n' & Htr)]; rewrite Htr in Hin; [exact Hin |].
      apply elem_of_app in Hin as [Hin | Hin]; [exact Hin |].
      apply list_elem_of_singleton in Hin. discriminate. }
    subst q2. cbn in Hin2.
    apply elem_of_app in Hin2 as [Hin2 | Hin2].
    + destruct Ht1 as [Ht1 | Ht1]; rewrite Ht1 in Hin2; [exact Hin2 |].
      apply elem_of_app in Hin2 as [Hin2 | Hin2]; [exact Hin2 |].
      apply list_elem_of_singleton in Hin2. discriminate.
    + apply list_elem_of_singleton in Hin2. discriminate.
  - reflexivity.
Qed.

(** ** The runs above, on concrete hosts *)

Lemma vault_read_failure_is_fatal_second_note :
  getFiles unreadable_note_host
  = [("a.md", Some "alpha")] ++ ("b.md", None) :: [("c.md", Some "gamma")]
  /\ notices (createBackup unreadable_note_host configured_plugin)
     = [StartingBackup; AddingFiles 1 3; BackupFailed (VaultReadError "b.md"); Hidden]
  /\ fs_trace (createBackup unreadable_note_host configured_plugin) = [].
Proof.
  split; [reflexivity |].
  destruct (vault_read_failure_is_fatal unreadable_note_host configured_plugin
              [("a.md", Some "alpha")] [("c.md", Some "gamma")] "b.md")
    as (Hn & _ & _ & _ & Ht & _).
  - reflexivity.
  - reflexivity.
  - repeat constructor. eexists. reflexivity.
  - split; [exact Hn | exact Ht].
Defined.

Lemma mkdir_failure_is_fatal_example :
  mkdir no_mkdir_host (backupDir no_mkdir_host (settings configured_plugin))
  = MkdirFails
  /\ notices (createBackup no_mkdir_host configured_plugin)
     = [StartingBackup; AddingFiles 1 1; VerifyingBackup;
        BackupFailed (MkdirError "/backups"); Hidden]
  /\ disk (createBackup no_mkdir_host configured_plugin) = disk configured_plugin.
Proof.
  split; [reflexivity |].
  destruct (mkdir_failure_is_fatal no_mkdir_host configured_plugin)
    as (Hn & _ & _ & Hd & _).
  - reflexivity.
  - repeat constructor. eexists. reflexivity.
  - reflexivity.
  - split; [exact Hn | exact Hd].
Defined.


Lemma unlistable_metadata_folder_is_partial_example :
  obsidianFolder (host_with None) = None
  /\ WroteZip "/backups" "2023-11-14T22-13-20_Notes.zip" [("a.md", Buffer_from "alpha")]
     ∈ fs_trace (createBackup (host_with None) configured_plugin)
  /\ reports_partial (createBackup (host_with None) configured_plugin).
Proof.
  split; [reflexivity |].
  destruct (unlistable_metadata_folder_is_partial (host_with None) configured_plugin)
    as (Hin & _ & Hp).
  - reflexivity.
  - repeat constructor. eexists. reflexivity.
  - reflexivity.
  - discriminate.
  - reflexivity.
  - reflexivity.
  - split; [exact Hin | exact Hp].
Defined.

Lemma secondary_copy_failure_is_not_fatal_example :
  isConfigured (secondaryBackupPath (settings two_locations_plugin)) = true
  /\ copyFile_ok no_copy_host "/mnt/copy" "2023-11-14T22-13-20_Notes.zip" = false
  /\ notices (createBackup no_copy_host two_locations_plugin)
     = [StartingBackup; AddingFiles 1 1; VerifyingBackup;
        SecondaryFolderMissing; BackupCreated; Hidden]
  /\ lastBackupTime (settings (createBackup no_copy_host two_locations_plugin))
     = 1700000002000.
Proof.
  split; [reflexivity |]. split; [reflexivity |].
  destruct (secondary_copy_failure_is_not_fatal no_copy_host two_locations_plugin)
    as (Hn & _ & Hl & _).
  - reflexivity.
  - repeat constructor. eexists. reflexivity.
  - discriminate.
  - reflexivity.
  - reflexivity.
  - reflexivity.
  - reflexivity.
  - split; [exact Hn | exact Hl].
Defined.

Lemma save_failure_after_write_example :
  saveData_ok no_save_host = false
  /\ lastBackupTime (settings (createBackup no_save_host configured_plugin))
     = 1700000002000
  /\ data_json (createBackup no_save_host configured_plugin) = None
  /\ isBackupInProgress (createBackup no_save_host configured_plugin) = false.
Proof.
  split; [reflexivity |].
  destruct (save_failure_after_write no_save_host configured_plugin)
    as (_ & _ & Hl & Hj & _ & Hf).
  - reflexivity.
  - repeat constructor. eexists. reflexivity.
  - discriminate.
  - reflexivity.
  - reflexivity.
  - split; [exact Hl |]. split; [exact Hj | exact Hf].
Defined.

(** ** More on retention *)

(** The loop of deletions, when some of them fail: the files that can be
    deleted are, the others stay, and nothing else is touched. *)
Lemma deleteAll_independent (h : host) (dir : string) (dels : list BackupFile) :
  forall (p : plugin) (d : gmap string Z),
  disk p !! dir = Some d ->
  NoDup (name <$> dels) ->
  Forall (fun f => path f = (dir, name f)) dels ->
  exists d',
    disk (foldl (deleteOne h) p dels) !! dir = Some d'
    /\ forall n,
         d' !! n
         = if decide (n ∈ name <$> filter (fun f => unlink_ok h dir (name f) = true) dels)
           then None else d !! n.
Proof.
  induction dels as [| f r IH]; intros p d Hd Hnd Hall.
  - exists d. split; [exact Hd |]. intros n.
    destruct (decide _) as [Hin | _]; [| reflexivity].
    apply elem_of_nil in Hin. contradiction.
  - rewrite fmap_cons in Hnd. apply NoDup_cons in Hnd as [Hf Hnd].
    apply Forall_cons in Hall as [Hpath Hall].
    assert (Hfr : name f ∉ name <$> filter (fun g => unlink_ok h dir (name g) = true) r).
    { intros (g & Hg & Hin)%list_elem_of_fmap. apply list_elem_of_filter in Hin as [_ Hin].
      apply Hf. rewrite Hg. apply list_elem_of_fmap_2. exact Hin. }
    cbn [foldl]. unfold deleteOne at 2. unfold unlink. rewrite Hpath. cbn [fst snd].
    destruct (unlink_ok h dir (name f)) eqn:Hok.
    + rewrite (filter_cons_True (fun g => unlink_ok h dir (name g) = true) f r Hok).
      rewrite fmap_cons, Hd. cbn [mbind option_bind].
      destruct (d !! name f) as [t |] eqn:Ht; cbn [mbind option_bind].
      * set (p1 := print _ _).
        destruct (IH p1 (delete (name f) d)) as (d' & Hd' & Hlook);
          [subst p1; cbn; apply lookup_insert_eq | exact Hnd | exact Hall |].
        exists d'. split; [exact Hd' |]. intros n. rewrite Hlook.
        destruct (decide (n = name f)) as [-> | Hne].
        -- rewrite lookup_delete_eq.
           destruct (decide (name f ∈ _)); destruct (decide (name f ∈ name f :: _))
             as [_ | Hnot]; try reflexivity; exfalso; apply Hnot; left.
        -- rewrite lookup_delete_ne by congruence.
           destruct (decide (n ∈ name <$> _)) as [Hin | Hnin];
             destruct (decide (n ∈ name f :: _)) as [Hin' | Hnin']; try reflexivity.
           ++ exfalso. apply Hnin'. right. exact Hin.
           ++ exfalso. apply elem_of_cons in Hin' as [? | ?]; [congruence | contradiction].
      * set (p1 := print _ _).
        destruct (IH p1 d) as (d' & Hd' & Hlook);
          [exact Hd | exact Hnd | exact Hall |].
        exists d'. split; [exact Hd' |]. intros n. rewrite Hlook.
        destruct (decide (n = name f)) as [-> | Hne].
        -- destruct (decide (name f ∈ name <$> _)); [contradiction |].
           destruct (decide (name f ∈ name f :: _)) as [_ | Hnot]; [exact Ht |].
           exfalso. apply Hnot. left.
        -- destruct (decide (n ∈ name <$> _)) as [Hin | Hnin];
             destruct (decide (n ∈ name f :: _)) as [Hin' | Hnin']; try reflexivity.
           ++ exfalso. apply Hnin'. right. exact Hin.
           ++ exfalso. apply elem_of_cons in Hin' as [? | ?]; [congruence | contradiction].
    + rewrite (filter_cons_False (fun g => unlink_ok h dir (name g) = true) f r)
        by congruence.
      set (p1 := print _ _).
      destruct (IH p1 d) as (d' & Hd' & Hlook);
        [exact Hd | exact Hnd | exact Hall |].
      exists d'. split; [exact Hd' |]. exact Hlook.
Qed.

(** The records made for a listing carry its names, in order. *)
Lemma statAll_names (h : host) (p : plugin) (dir : string)
    (names : list string) (backupFiles : list BackupFile) :
  mapM (fun filename =>
          mkBackupFile filename (dir, filename)
            <$> stat_mtime h p dir filename) names = Some backupFiles ->
  name <$> backupFiles = names.
Proof.
  intros Hm. apply mapM_Some_1 in Hm.
  induction Hm as [| x y l k Hxy _ IH]; [reflexivity |].
  destruct (stat_mtime h p dir x); cbn in Hxy; [| discriminate].
  injection Hxy as <-. cbn. rewrite IH. reflexivity.
Qed.

(** X8. Whatever the keep-count and whatever fails, [cleanDirectory] only ever
    removes archives of its directory: what is left is part of what was
    there, files that are not archives stay, and other directories are not
    touched. *)
Theorem cleanDirectory_only_removes_archives (h : host) (dir : string)
    (keepCount : Z) (p : plugin) (d : gmap string Z) :
  disk p !! dir = Some d ->
  exists d',
    disk (cleanDirectory h dir keepCount p) !! dir = Some d'
    /\ d' ⊆ d
    /\ (forall n, ~ isZip n -> d' !! n = d !! n)
    /\ (forall other, other ≠ dir ->
          disk (cleanDirectory h dir keepCount p) !! other = disk p !! other).
Proof.
  intros Hd.
  assert (Hother : forall other, other ≠ dir ->
            disk (cleanDirectory h dir keepCount p) !! other = disk p !! other).
  { intros other Hne. apply cleanDirectory_other_dir. exact Hne. }
  unfold cleanDirectory in *. unfold readdir in *. rewrite Hd in *. cbn in *.
  destruct (mapM _ _) as [backupFiles |] eqn:Hm.
  - pose proof (statAll_names _ _ _ _ _ Hm) as Hnames.
    pose proof (statAll_paths _ _ _ _ _ Hm) as Hpaths.
    set (dels := slice keepCount (sort by_time backupFiles)) in *.
    assert (Hsub : dels ⊆ backupFiles).
    { intros f Hf. apply slice_sublist in Hf. rewrite sort_perm in Hf. exact Hf. }
    destruct (deleteAll_independent h dir dels p d Hd) as (d' & Hd' & Hlook).
    + unfold dels, slice. rewrite fmap_drop.
      eapply sublist_NoDup; [| apply sublist_drop].
      rewrite sort_perm, Hnames.
      apply NoDup_filter, NoDup_fst_map_to_list.
    + rewrite Forall_forall in Hpaths |- *. intros f Hf. apply Hpaths, Hsub, Hf.
    + exists d'. split; [exact Hd' |]. split; [| split; [| exact Hother]].
      * apply map_subseteq_spec. intros n t. rewrite Hlook.
        destruct (decide _); [discriminate | tauto].
      * intros n Hz. rewrite Hlook.
        destruct (decide _) as [Hin | _]; [| reflexivity].
        exfalso. apply Hz.
        apply list_elem_of_fmap in Hin as (g & -> & Hg).
        apply list_elem_of_filter in Hg as [_ Hg]. apply Hsub in Hg.
        apply (list_elem_of_fmap_2 name) in Hg. rewrite Hnames in Hg.
        apply list_elem_of_filter in Hg as [Hg _]. exact Hg.
  - exists d. split; [exact Hd |]. split; [reflexivity |]. split; [reflexivity |].
    exact Hother.
Qed.

Lemma length_filter_names (l : list (string * Z)) :
  length (filter isZip l.*1) = length (filter (fun e : string * Z => isZip e.1) l).
Proof.
  induction l as [| e r IH]; [reflexivity |].
  rewrite fmap_cons, !filter_cons.
  destruct (decide (isZip e.1)); cbn; rewrite IH; reflexivity.
Qed.

(** X9. A directory with no more archives than the keep-count is left as it
    is, whatever else fails: nothing is deleted. *)
Theorem cleanDirectory_within_count (h : host) (dir : string) (keepCount : Z)
    (p : plugin) (d : gmap string Z) :
  disk p !! dir = Some d ->
  Z.of_nat (length (archives d)) <= keepCount ->
  disk (cleanDirectory h dir keepCount p) = disk p
  /\ fs_trace (cleanDirectory h dir keepCount p) = fs_trace p.
Proof.
  intros Hd Hle. unfold cleanDirectory, readdir. rewrite Hd. cbn.
  destruct (mapM _ _) as [backupFiles |] eqn:Hm; [| split; reflexivity].
  apply statAll_names in Hm.
  assert (Hlen : length (sort by_time backupFiles) = length (archives d)).
  { rewrite sort_perm, <- (length_fmap name), Hm. apply length_filter_names. }
  unfold slice. rewrite Hlen.
  destruct (Z.ltb_spec keepCount 0); [lia |].
  rewrite Z.min_r by lia. rewrite Nat2Z.id, <- Hlen, drop_all. split; reflexivity.
Qed.

(** X10. When the directory cannot be listed, or one of its archives cannot be
    examined, the pass gives up on that directory: it logs one line and
    deletes nothing. *)
Theorem cleanDirectory_gives_up (h : host) (dir : string) (keepCount : Z)
    (p : plugin) :
  disk p !! dir = None
  \/ (exists d n t, disk p !! dir = Some d /\ d !! n = Some t /\ isZip n
                    /\ stat_ok h dir n = false) ->
  cleanDirectory h dir keepCount p = print [ErrorCleaningOldBackups dir] p.
Proof.
  intros [Hnone | (d & n & t & Hd & Hn & Hz & Hstat)];
    unfold cleanDirectory, readdir.
  - rewrite Hnone. reflexivity.
  - rewrite Hd. cbn.
    assert (Hm : mapM (fun filename =>
                         mkBackupFile filename (dir, filename)
                           <$> stat_mtime h p dir filename)
                      (filter isZip (map_to_list d).*1) = None).
    { apply mapM_None. apply Exists_exists. exists n. split.
      - apply list_elem_of_filter. split; [exact Hz |].
        apply list_elem_of_fmap. exists (n, t). split; [reflexivity |].
        apply elem_of_map_to_list. exact Hn.
      - unfold stat_mtime. rewrite Hstat. reflexivity. }
    rewrite Hm. reflexivity.
Qed.

(** What a pass leaves, when the archives have distinct times and can be
    examined and the keep-count is not negative. *)
Lemma cleanDirectory_survivors (h : host) (dir : string)
    (keepCount : Z) (p : plugin) (d : gmap string Z) :
  disk p !! dir = Some d ->
  (forall n t, d !! n = Some t -> isZip n -> stat_ok h dir n = true) ->
  (forall n1 n2 t, d !! n1 = Some t -> d !! n2 = Some t ->
                   isZip n1 -> isZip n2 -> n1 = n2) ->
  0 <= keepCount ->
  disk (cleanDirectory h dir keepCount p) !! dir
  = Some (survivors h dir keepCount d).
Proof.
  intros Hd Hstat Hdistinct Hk.
  set (sorted := sort by_time
         ((fun e : string * Z => mkBackupFile e.1 (dir, e.1) e.2) <$> archives d)).
  set (k := Z.to_nat (Z.min keepCount (Z.of_nat (length sorted)))).
  assert (Hrun : cleanDirectory h dir keepCount p
                 = foldl (deleteOne h) p (drop k sorted)).
  { unfold cleanDirectory, readdir. rewrite Hd. cbn.
    rewrite (statAll_ok h p dir d (map_to_list d) Hd).
    - unfold slice. fold (archives d). fold sorted.
      destruct (Z.ltb_spec keepCount 0); [lia | reflexivity].
    - intros e He. apply elem_of_map_to_list' in He. split; [exact He |].
      intros Hz. eapply Hstat; eauto. }
  destruct (deleteAll_independent h dir (drop k sorted) p d Hd)
    as (d' & Hd' & Hlook).
  { rewrite fmap_drop.
    eapply sublist_NoDup; [apply archives_names_NoDup | apply sublist_drop]. }
  { apply Forall_forall. intros f Hf. apply subseteq_drop in Hf.
    apply elem_of_sorted in Hf as (n & t & -> & _). reflexivity. }
  rewrite Hrun, Hd'. f_equal.
  apply map_eq. intros n. apply option_eq. intros t.
  unfold survivors. rewrite map_lookup_filter_Some, Hlook. cbn.
  destruct (decide _) as [Hin | Hnin].
  - split; [discriminate |]. intros [Hl Hp]. exfalso.
    apply list_elem_of_fmap in Hin as (g & -> & Hg).
    apply list_elem_of_filter in Hg as [Hok Hg].
    pose proof (subseteq_drop _ _ _ Hg) as Hs.
    apply elem_of_sorted in Hs as (n' & t' & -> & Hl' & Hz). cbn in *.
    assert (t' = t) by congruence. subst t'.
    assert (Hdrop : n' ∈ name <$> drop k sorted).
    { apply (list_elem_of_fmap_2 name) in Hg. exact Hg. }
    apply (dropped_iff dir d Hdistinct k n' t Hl Hz) in Hdrop.
    destruct (Hp Hz) as [Hlt | Hfail]; [| congruence].
    pose proof (position_of_archive dir d Hdistinct n' t Hl Hz) as Hpos.
    fold sorted in Hpos. apply lookup_lt_Some in Hpos.
    subst k. lia.
  - split; [| tauto].
    intros Hl. split; [exact Hl |]. intros Hz.
    destruct (unlink_ok h dir n) eqn:Hok; [left | right; reflexivity].
    destruct (Z.lt_ge_cases (Z.of_nat (newer_archives d t)) keepCount) as [Hlt | Hge];
      [exact Hlt |].
    exfalso. apply Hnin.
    pose proof (position_of_archive dir d Hdistinct n t Hl Hz) as Hpos.
    fold sorted in Hpos.
    assert (Hlen : (newer_archives d t < length sorted)%nat)
      by (eapply lookup_lt_Some; exact Hpos).
    assert (Hdrop : n ∈ name <$> drop k sorted).
    { apply (dropped_iff dir d Hdistinct k n t Hl Hz). subst k. lia. }
    apply list_elem_of_fmap in Hdrop as (g & Hg & Hin).
    apply list_elem_of_fmap. exists g. split; [exact Hg |].
    apply list_elem_of_filter. split; [| exact Hin].
    rewrite <- Hg. exact Hok.
Qed.

(** X11. Each deletion stands alone.  In a directory whose archives have
    distinct times and can be examined, for any keep-count that is not
    negative, the pass leaves exactly the files that are not archives, the
    archives with fewer than keep-count newer ones, and the archives whose
    deletion fails: an archive beyond the count is gone if and only if its
    own deletion succeeds, whatever happens to the others. *)
Theorem cleanDirectory_deletes_independently (h : host) (dir : string)
    (keepCount : Z) (p : plugin) (d : gmap string Z) :
  disk p !! dir = Some d ->
  (forall n t, d !! n = Some t -> isZip n -> stat_ok h dir n = true) ->
  (forall n1 n2 t, d !! n1 = Some t -> d !! n2 = Some t ->
                   isZip n1 -> isZip n2 -> n1 = n2) ->
  0 <= keepCount ->
  exists d',
    disk (cleanDirectory h dir keepCount p) !! dir = Some d'
    /\ d' = survivors h dir keepCount d
    /\ (forall n t, d !! n = Some t -> isZip n ->
          keepCount <= Z.of_nat (newer_archives d t) ->
          d' !! n = if unlink_ok h dir n then None else Some t).
Proof.
  intros Hd Hstat Hdistinct Hk. exists (survivors h dir keepCount d).
  split; [apply cleanDirectory_survivors; assumption |].
  split; [reflexivity |].
  intros n t Hl Hz Hge. unfold survivors.
  destruct (unlink_ok h dir n) eqn:Hok.
  - apply map_lookup_filter_None. right. intros t' Hl' Hp. cbn in Hp.
    assert (t' = t) by congruence. subst t'.
    destruct (Hp Hz) as [Hlt | Hfail]; [lia | congruence].
  - apply map_lookup_filter_Some. split; [exact Hl |]. cbn. intros _. right. exact Hok.
Qed.

(** X12. The newest archive is never pruned away.  With a keep-count of one or
    more, an archive that is strictly newer than every other archive of the
    directory is still there after the pass, whatever the other times are
    and whatever fails. *)
Theorem cleanDirectory_keeps_newest (h : host) (dir : string) (keepCount : Z)
    (p : plugin) (d : gmap string Z) (n : string) (t : Z) :
  disk p !! dir = Some d ->
  d !! n = Some t -> isZip n ->
  (forall n' t', d !! n' = Some t' -> isZip n' -> n' ≠ n -> t' < t) ->
  1 <= keepCount ->
  exists d', disk (cleanDirectory h dir keepCount p) !! dir = Some d'
             /\ d' !! n = Some t.
Proof.
  intros Hd Hl Hz Hnewest Hk. unfold cleanDirectory, readdir. rewrite Hd. cbn.
  destruct (mapM _ _) as [backupFiles |] eqn:Hm; [| exists d; auto].
  pose proof (statAll_names _ _ _ _ _ Hm) as Hnames.
  pose proof (statAll_paths _ _ _ _ _ Hm) as Hpaths.
  assert (Htimes : Forall (fun f => d !! name f = Some (time f)) backupFiles).
  { apply mapM_Some_1 in Hm. clear Hnames Hpaths.
    induction Hm as [| x y l k Hxy _ IH]; constructor; [| exact IH].
    unfold stat_mtime in Hxy. destruct (stat_ok h dir x); [| discriminate].
    rewrite Hd in Hxy. cbn in Hxy. destruct (d !! x) eqn:Hx; [| discriminate].
    cbn in Hxy. injection Hxy as <-. exact Hx. }
  set (sorted := sort by_time backupFiles).
  assert (Hperm : sorted ≡ₚ backupFiles) by apply sort_perm.
  assert (Hnd : NoDup (name <$> sorted)).
  { rewrite Hperm, Hnames. apply NoDup_filter, NoDup_fst_map_to_list. }
  assert (Hin : n ∈ name <$> sorted).
  { rewrite Hperm, Hnames. apply list_elem_of_filter. split; [exact Hz |].
    apply list_elem_of_fmap. exists (n, t). split; [reflexivity |].
    apply elem_of_map_to_list. exact Hl. }
  assert (Hsorted : StronglySorted (fun a b => time b <= time a) sorted)
    by apply sort_sorted.
  assert (Hzips : Forall (fun f => isZip (name f)) sorted).
  { apply Forall_forall. intros f Hf. apply (list_elem_of_fmap_2 name) in Hf.
    rewrite Hperm, Hnames in Hf. apply list_elem_of_filter in Hf. tauto. }
  rewrite <- Hperm in Htimes, Hpaths.
  assert (Hout : n ∉ name <$> slice keepCount sorted).
  { unfold slice. destruct (Z.ltb_spec keepCount 0); [lia |].
    destruct sorted as [| x rest]; [apply elem_of_nil in Hin; contradiction |].
    assert (Hx : name x = n).
    { destruct (decide (name x = n)) as [| Hne]; [assumption | exfalso].
      rewrite fmap_cons in Hin.
      apply elem_of_cons in Hin as [Hin | Hin]; [congruence |].
      apply list_elem_of_fmap in Hin as (g & Hg & Hgin).
      apply StronglySorted_inv in Hsorted as [_ Hall].
      rewrite Forall_forall in Hall. specialize (Hall g Hgin). cbn in Hall.
      rewrite Forall_forall in Htimes.
      pose proof (Htimes x (list_elem_of_here _ _)) as Htx.
      pose proof (Htimes g (list_elem_of_further _ _ _ Hgin)) as Htg.
      rewrite <- Hg, Hl in Htg. injection Htg as Htg.
      apply Forall_cons in Hzips as [Hzx _].
      pose proof (Hnewest (name x) (time x) Htx Hzx Hne). lia. }
    rewrite fmap_cons in Hnd. apply NoDup_cons in Hnd as [Hnotin _].
    rewrite Hx in Hnotin. intros Hdrop. apply Hnotin.
    cbn [length] in Hdrop.
    replace (Z.to_nat (Z.min keepCount (Z.of_nat (S (length rest)))))
      with (S (Z.to_nat (Z.min (keepCount - 1) (Z.of_nat (length rest)))))
      in Hdrop by lia.
    cbn [drop] in Hdrop. rewrite fmap_drop in Hdrop.
    eapply subseteq_drop. exact Hdrop. }
  destruct (deleteAll_independent h dir (slice keepCount sorted) p d Hd)
    as (d' & Hd' & Hlook).
  { unfold slice. rewrite fmap_drop.
    eapply sublist_NoDup; [exact Hnd | apply sublist_drop]. }
  { rewrite Forall_forall in Hpaths |- *. intros f Hf.
    apply Hpaths. eapply slice_sublist. exact Hf. }
  exists d'. split; [exact Hd' |]. rewrite Hlook.
  destruct (decide _) as [Hbad | _]; [| exact Hl].
  exfalso. apply Hout.
  apply list_elem_of_fmap in Hbad as (g & Hg & Hgin).
  apply list_elem_of_filter in Hgin as [_ Hgin].
  apply list_elem_of_fmap. eauto.
Qed.

Lemma filter_submseteq_mono {A} (P : A -> Prop) `{!forall x, Decision (P x)}
    (l1 l2 : list A) :
  l1 ⊆+ l2 -> filter P l1 ⊆+ filter P l2.
Proof.
  induction 1 as [| x l1 l2 _ IH | x y l | x l1 l2 _ IH | l1 l2 l3 _ IH1 _ IH2];
    rewrite ?filter_cons.
  - constructor.
  - destruct (decide (P x)); [apply submseteq_skip |]; exact IH.
  - destruct (decide (P x)), (decide (P y)); try reflexivity.
    apply submseteq_swap.
  - destruct (decide (P x)); [apply submseteq_cons |]; exact IH.
  - etransitivity; eassumption.
Qed.

Lemma newer_archives_mono (d1 d : gmap string Z) (t : Z) :
  d1 ⊆ d -> (newer_archives d1 t <= newer_archives d t)%nat.
Proof.
  intros Hsub. unfold newer_archives, archives.
  apply submseteq_length. do 2 apply filter_submseteq_mono.
  apply map_to_list_submseteq. exact Hsub.
Qed.

(** X13. Pruning is idempotent.  In a directory whose archives have distinct
    times and can be examined and deleted, a second pass with the same
    keep-count, with nothing added in between, leaves the directory as the
    first pass left it. *)
Theorem cleanDirectory_idempotent (h : host) (dir : string) (keepCount : Z)
    (p : plugin) (d : gmap string Z) :
  disk p !! dir = Some d ->
  (forall n t, d !! n = Some t -> isZip n ->
               stat_ok h dir n = true /\ unlink_ok h dir n = true) ->
  (forall n1 n2 t, d !! n1 = Some t -> d !! n2 = Some t ->
                   isZip n1 -> isZip n2 -> n1 = n2) ->
  0 <= keepCount ->
  disk (cleanDirectory h dir keepCount (cleanDirectory h dir keepCount p)) !! dir
  = disk (cleanDirectory h dir keepCount p) !! dir.
Proof.
  intros Hd Hio Hdistinct Hk.
  set (d1 := survivors h dir keepCount d).
  assert (Hsub : d1 ⊆ d) by apply map_filter_subseteq.
  assert (H1 : disk (cleanDirectory h dir keepCount p) !! dir = Some d1).
  { apply cleanDirectory_survivors; try assumption.
    intros n t Hl Hz. apply (Hio n t Hl Hz). }
  rewrite H1.
  rewrite (cleanDirectory_survivors h dir keepCount _ d1 H1); try assumption.
  - f_equal. unfold survivors at 1. apply map_filter_id.
    intros n t Hl Hz. left. cbn [fst snd] in *.
    pose proof Hl as Hl1. unfold d1, survivors in Hl1.
    apply map_lookup_filter_Some in Hl1 as [Hl0 Hp]. cbn in Hp.
    destruct (Hp Hz) as [Hlt | Hfail].
    + pose proof (newer_archives_mono d1 d t Hsub). lia.
    + destruct (Hio n t Hl0 Hz). congruence.
  - intros n t Hl Hz. apply (Hio n t (lookup_weaken _ _ _ _ Hl Hsub) Hz).
  - intros n1 n2 t Hl1 Hl2.
    apply (Hdistinct n1 n2 t (lookup_weaken _ _ _ _ Hl1 Hsub)
             (lookup_weaken _ _ _ _ Hl2 Hsub)).
Qed.

(** ** The retention properties, on the five archives *)

Lemma five_archives_distinct :
  forall n1 n2 t, five_archives !! n1 = Some t -> five_archives !! n2 = Some t ->
                  isZip n1 -> isZip n2 -> n1 = n2.
Proof.
  intros n1 n2 t H1 H2 _ _.
  apply (distinct_times_of_listing five_archives) with t; [| exact H1 | exact H2].
  apply (bool_decide_unpack _). vm_compute. exact I.
Qed.

Lemma cleanDirectory_only_removes_archives_example :
  disk five_archives_plugin !! "/backups" = Some five_archives
  /\ exists d',
       disk (cleanDirectory locked_file_host "/backups" 0 five_archives_plugin)
         !! "/backups" = Some d'
       /\ d' !! "notes.txt" = Some 50.
Proof.
  split; [reflexivity |].
  destruct (cleanDirectory_only_removes_archives locked_file_host "/backups" 0
              five_archives_plugin five_archives) as (d' & Hd' & _ & Hkeep & _).
  - reflexivity.
  - exists d'. split; [exact Hd' |]. rewrite Hkeep; [reflexivity |].
    vm_compute. discriminate.
Defined.

Lemma cleanDirectory_within_count_example :
  Z.of_nat (length (archives five_archives)) <= 5
  /\ disk (cleanDirectory quiet_host "/backups" 5 five_archives_plugin)
     = disk five_archives_plugin.
Proof.
  split; [vm_compute; discriminate |].
  apply (cleanDirectory_within_count quiet_host "/backups" 5
           five_archives_plugin five_archives).
  - reflexivity.
  - vm_compute. discriminate.
Defined.

Lemma cleanDirectory_gives_up_example :
  stat_ok unreadable_stat_host "/backups" "tue.zip" = false
  /\ disk (cleanDirectory unreadable_stat_host "/backups" 2 five_archives_plugin)
     = disk five_archives_plugin
  /\ console (cleanDirectory unreadable_stat_host "/backups" 2 five_archives_plugin)
     = [ErrorCleaningOldBackups "/backups"].
Proof.
  split; [reflexivity |].
  rewrite (cleanDirectory_gives_up unreadable_stat_host "/backups" 2
             five_archives_plugin).
  - split; reflexivity.
  - right. exists five_archives, "tue.zip", 200.
    repeat split; reflexivity.
Defined.

Lemma cleanDirectory_deletes_independently_example :
  unlink_ok locked_file_host "/backups" "tue.zip" = false
  /\ exists d',
       disk (cleanDirectory locked_file_host "/backups" 2 five_archives_plugin)
         !! "/backups" = Some d'
       /\ d' !! "tue.zip" = Some 200
       /\ d' !! "wed.zip" = None.
Proof.
  split; [reflexivity |].
  destruct (cleanDirectory_deletes_independently locked_file_host "/backups" 2
              five_archives_plugin five_archives) as (d' & Hd' & _ & Hgone).
  - reflexivity.
  - intros n t _ _. reflexivity.
  - exact five_archives_distinct.
  - lia.
  - exists d'. split; [exact Hd' |]. split.
    + rewrite (Hgone "tue.zip" 200); [reflexivity | reflexivity | reflexivity |].
      vm_compute. discriminate.
    + rewrite (Hgone "wed.zip" 300); [reflexivity | reflexivity | reflexivity |].
      vm_compute. discriminate.
Defined.

Lemma cleanDirectory_keeps_newest_example :
  five_archives !! "fri.zip" = Some 500
  /\ exists d',
       disk (cleanDirectory locked_file_host "/backups" 1 five_archives_plugin)
         !! "/backups" = Some d'
       /\ d' !! "fri.zip" = Some 500.
Proof.
  split; [reflexivity |].
  apply (cleanDirectory_keeps_newest locked_file_host "/backups" 1
           five_archives_plugin five_archives "fri.zip" 500).
  - reflexivity.
  - reflexivity.
  - reflexivity.
  - intros n' t' Hl _ Hne.
    assert (Hall : Forall (fun e : string * Z => e.1 = "fri.zip" \/ e.2 < 500)
                          (map_to_list five_archives)).
    { apply (bool_decide_unpack _). vm_compute. exact I. }
    rewrite Forall_forall in Hall.
    apply elem_of_map_to_list in Hl. destruct (Hall _ Hl) as [Heq | Hlt];
      [contradiction | exact Hlt].
  - lia.
Defined.

Lemma cleanDirectory_idempotent_example :
  disk five_archives_plugin !! "/backups" = Some five_archives
  /\ disk (cleanDirectory quiet_host "/backups" 2
             (cleanDirectory quiet_host "/backups" 2 five_archives_plugin))
       !! "/backups"
     = disk (cleanDirectory quiet_host "/backups" 2 five_archives_plugin)
         !! "/backups".
Proof.
  split; [reflexivity |].
  apply (cleanDirectory_idempotent quiet_host "/backups" 2
           five_archives_plugin five_archives).
  - reflexivity.
  - intros n t _ _. split; reflexivity.
  - exact five_archives_distinct.
  - lia.
Defined.

(** ** The countdown *)

Lemma Qfloor_bounds (x : Q) :
  (inject_Z (Qfloor x) <= x)%Q /\ (x < inject_Z (Qfloor x) + 1)%Q.
Proof.
  split; [apply Qfloor_le |].
  pose proof (Qlt_floor x) as H. rewrite inject_Z_plus in H. exact H.
Qed.

Lemma Qtrunc_nonneg (x : Q) : (0 <= x)%Q -> Qtrunc x = Qfloor x.
Proof.
  intros Hx. unfold Qtrunc.
  destruct (Qle_bool 0 x) eqn:E; [reflexivity |].
  apply Qle_bool_iff in Hx. congruence.
Qed.

Lemma inject_Z_lt_inv (a b : Z) : (inject_Z a < inject_Z b)%Q -> a < b.
Proof. unfold Qlt, inject_Z. cbn. lia. Qed.

(** The three fields, for a time left that is not negative. *)
Lemma countdown_fields (timeLeft : Q) :
  (0 <= timeLeft)%Q ->
  let h := Qfloor (timeLeft / (1000 * 60 * 60)) in
  let m := Qfloor (js_rem timeLeft (1000 * 60 * 60) / (1000 * 60)) in
  let s := Qfloor (js_rem timeLeft (1000 * 60) / 1000) in
  0 <= h /\ 0 <= m < 60 /\ 0 <= s < 60
  /\ (inject_Z (h * 3600000 + m * 60000 + s * 1000) <= timeLeft)%Q
  /\ (timeLeft < inject_Z (h * 3600000 + m * 60000 + s * 1000) + 1000)%Q.
Proof.
  intros Hpos. cbn zeta. unfold js_rem.
  rewrite !Qtrunc_nonneg by (apply Qle_shift_div_l; lra).
  set (H := Qfloor (timeLeft / (1000 * 60 * 60))).
  set (F := Qfloor (timeLeft / (1000 * 60))).
  destruct (Qfloor_bounds (timeLeft / (1000 * 60 * 60))) as [H1 H2]. fold H in H1, H2.
  destruct (Qfloor_bounds (timeLeft / (1000 * 60))) as [F1 F2]. fold F in F1, F2.
  set (r1 := ((timeLeft - 1000 * 60 * 60 * inject_Z H) / (1000 * 60))%Q).
  set (r2 := ((timeLeft - 1000 * 60 * inject_Z F) / 1000)%Q).
  destruct (Qfloor_bounds r1) as [M1 M2]. destruct (Qfloor_bounds r2) as [S1 S2].
  set (M := Qfloor r1) in *. set (S := Qfloor r2) in *.
  assert (E1 : (timeLeft / (1000 * 60 * 60) == timeLeft * (1 # 3600000))%Q) by field.
  assert (E2 : (timeLeft / (1000 * 60) == timeLeft * (1 # 60000))%Q) by field.
  assert (E3 : (r1 == timeLeft * (1 # 60000) - 60 * inject_Z H)%Q)
    by (unfold r1; field).
  assert (E4 : (r2 == timeLeft * (1 # 1000) - 60 * inject_Z F)%Q)
    by (unfold r2; field).
  rewrite E1 in H1, H2. rewrite E2 in F1, F2. rewrite E3 in M1, M2.
  rewrite E4 in S1, S2.
  assert (HH : 0 <= H).
  { assert (Ha : -1 < H)
      by (apply inject_Z_lt_inv; change (inject_Z (-1)) with (-1)%Q; lra).
    lia. }
  assert (HF : F = 60 * H + M).
  { assert (Ha : F < 60 * H + M + 1).
    { apply inject_Z_lt_inv. rewrite !inject_Z_plus, inject_Z_mult.
      change (inject_Z 60) with 60%Q. change (inject_Z 1) with 1%Q. lra. }
    assert (Hb : 60 * H + M < F + 1).
    { apply inject_Z_lt_inv. rewrite !inject_Z_plus, inject_Z_mult.
      change (inject_Z 60) with 60%Q. change (inject_Z 1) with 1%Q. lra. }
    lia. }
  assert (HM : 0 <= M < 60).
  { assert (Ha : -1 < M)
      by (apply inject_Z_lt_inv; change (inject_Z (-1)) with (-1)%Q; lra).
    assert (Hb : M < 60)
      by (apply inject_Z_lt_inv; change (inject_Z 60) with 60%Q; lra).
    lia. }
  assert (HS : 0 <= S < 60).
  { assert (Ha : -1 < S)
      by (apply inject_Z_lt_inv; change (inject_Z (-1)) with (-1)%Q; lra).
    assert (Hb : S < 60)
      by (apply inject_Z_lt_inv; change (inject_Z 60) with 60%Q; lra).
    lia. }
  split; [exact HH |]. split; [exact HM |]. split; [exact HS |].
  rewrite HF, !inject_Z_plus, !inject_Z_mult in S1, S2.
  rewrite !inject_Z_plus, !inject_Z_mult.
  change (inject_Z 60) with 60%Q in *.
  change (inject_Z 3600000) with 3600000%Q.
  change (inject_Z 60000) with 60000%Q.
  change (inject_Z 1000) with 1000%Q.
  split; lra.
Qed.

(** X14. The countdown is the time left, cut into hours, minutes and seconds:
    the fields are not negative, minutes and seconds stay below 60, together
    they fall short of the time left by less than a second, and when the
    backup is overdue all three are zero. *)
Theorem countdown_is_time_left (p : plugin) :
  0 <= hours (getTimeUntilNextBackup p)
  /\ 0 <= minutes (getTimeUntilNextBackup p) < 60
  /\ 0 <= seconds (getTimeUntilNextBackup p) < 60
  /\ ((nextBackupTime p - inject_Z (Date_now p) < 0)%Q ->
      getTimeUntilNextBackup p = mkCountdown 0 0 0)
  /\ ((0 <= nextBackupTime p - inject_Z (Date_now p))%Q ->
      (inject_Z (hours (getTimeUntilNextBackup p) * 3600000
                 + minutes (getTimeUntilNextBackup p) * 60000
                 + seconds (getTimeUntilNextBackup p) * 1000)
       <= nextBackupTime p - inject_Z (Date_now p))%Q
      /\ (nextBackupTime p - inject_Z (Date_now p)
          < inject_Z (hours (getTimeUntilNextBackup p) * 3600000
                      + minutes (getTimeUntilNextBackup p) * 60000
                      + seconds (getTimeUntilNextBackup p) * 1000) + 1000)%Q).
Proof.
  unfold getTimeUntilNextBackup.
  set (timeLeft := (nextBackupTime p - inject_Z (Date_now p))%Q).
  destruct (Qlt_le_dec timeLeft 0) as [Hneg | Hpos]; cbn [hours minutes seconds].
  - split; [lia |]. split; [lia |]. split; [lia |].
    split; [intros _; reflexivity |]. intros Hpos. lra.
  - destruct (countdown_fields timeLeft Hpos) as (Hh & Hm & Hs & Hlow & Hhigh).
    split; [exact Hh |]. split; [exact Hm |]. split; [exact Hs |].
    split; [intros Hneg; lra |]. intros _. split; assumption.
Qed.

(** X15. The status bar says "Backing Up Vault" while the flag is up; otherwise
    it says "Starting Backup" exactly when less than a second is left or the
    backup is overdue, and shows the countdown the rest of the time. *)
Theorem status_bar_text (p : plugin) :
  (isBackupInProgress p = true -> updateStatusBarText p = BackingUpVault)
  /\ (isBackupInProgress p = false ->
      (updateStatusBarText p = StartingBackupSoon
       <-> (nextBackupTime p - inject_Z (Date_now p) < 1000)%Q)
      /\ (updateStatusBarText p = StartingBackupSoon
          \/ updateStatusBarText p
             = BackupIn (hours (getTimeUntilNextBackup p))
                        (minutes (getTimeUntilNextBackup p))
                        (seconds (getTimeUntilNextBackup p)))).
Proof.
  unfold updateStatusBarText. split; intros Hflag; rewrite Hflag; [reflexivity |].
  unfold getTimeUntilNextBackup.
  set (timeLeft := (nextBackupTime p - inject_Z (Date_now p))%Q).
  destruct (Qlt_le_dec timeLeft 0) as [Hneg | Hpos]; cbn [hours minutes seconds].
  - cbn. split; [| left; reflexivity]. split; [intros _; lra | reflexivity].
  - destruct (countdown_fields timeLeft Hpos) as (Hh & Hm & Hs & Hlow & Hhigh).
    cbn zeta in *.
    set (hh := Qfloor (timeLeft / (1000 * 60 * 60))) in *.
    set (mm := Qfloor (js_rem timeLeft (1000 * 60 * 60) / (1000 * 60))) in *.
    set (ss := Qfloor (js_rem timeLeft (1000 * 60) / 1000)) in *.
    destruct ((hh =? 0) && (mm =? 0) && (ss =? 0))%bool eqn:E.
    + split; [| left; reflexivity]. split; [| reflexivity]. intros _.
      apply andb_true_iff in E as [E Es]. apply andb_true_iff in E as [Eh Em].
      apply Z.eqb_eq in Eh, Em, Es. rewrite Eh, Em, Es in Hhigh.
      change (inject_Z (0 * 3600000 + 0 * 60000 + 0 * 1000)) with 0%Q in Hhigh. lra.
    + split; [| right; reflexivity]. split; [discriminate |]. intros Hlt. exfalso.
      assert (Hz : hh * 3600000 + mm * 60000 + ss * 1000 < 1000).
      { apply inject_Z_lt_inv. change (inject_Z 1000) with 1000%Q. lra. }
      assert (hh = 0 /\ mm = 0 /\ ss = 0) as (-> & -> & ->) by lia.
      discriminate.
Qed.

Lemma countdown_is_time_left_example :
  (0 <= nextBackupTime counting_plugin - inject_Z (Date_now counting_plugin))%Q
  /\ getTimeUntilNextBackup counting_plugin = mkCountdown 1 2 5
  /\ (inject_Z (1 * 3600000 + 2 * 60000 + 5 * 1000)
      <= nextBackupTime counting_plugin - inject_Z (Date_now counting_plugin))%Q.
Proof.
  assert (Hpos : (0 <= nextBackupTime counting_plugin
                       - inject_Z (Date_now counting_plugin))%Q)
    by (vm_compute; discriminate).
  split; [exact Hpos |]. split; [reflexivity |].
  destruct (countdown_is_time_left counting_plugin) as (_ & _ & _ & _ & Hleft).
  destruct (Hleft Hpos) as [Hlow _]. exact Hlow.
Defined.

Lemma status_bar_text_example :
  isBackupInProgress counting_plugin = false
  /\ updateStatusBarText counting_plugin = BackupIn 1 2 5
  /\ ~ (nextBackupTime counting_plugin - inject_Z (Date_now counting_plugin) < 1000)%Q.
Proof.
  split; [reflexivity |]. split; [reflexivity |].
  destruct (status_bar_text counting_plugin) as [_ Hidle].
  destruct (Hidle eq_refl) as [Hiff _].
  intros Hlt. apply Hiff in Hlt. discriminate.
Defined.

(** ** The schedule and the event loop *)







(** ** Paths and names *)

Lemma trimStart_empty (s : string) :
  JsString.isEmpty (JsString.trimStart s) = allWhiteSpace s.
Proof.
  induction s as [| c r IH]; [reflexivity |]. cbn.
  destruct (JsString.isWhiteSpace c); [exact IH | reflexivity].
Qed.

Lemma allWhiteSpace_trimStart (s : string) :
  allWhiteSpace (JsString.trimStart s) = allWhiteSpace s.
Proof.
  induction s as [| c r IH]; [reflexivity |]. cbn.
  destruct (JsString.isWhiteSpace c) eqn:E; [exact IH |]. cbn. rewrite E. reflexivity.
Qed.

Lemma allWhiteSpace_rev_app (s acc : string) :
  allWhiteSpace (String.rev_app s acc) = (allWhiteSpace s && allWhiteSpace acc)%bool.
Proof.
  revert acc. induction s as [| c r IH]; intros acc; [reflexivity |].
  cbn. rewrite IH. cbn. destruct (JsString.isWhiteSpace c), (allWhiteSpace r);
    reflexivity.
Qed.

Lemma isEmpty_rev_app (s acc : string) :
  JsString.isEmpty (String.rev_app s acc)
  = (JsString.isEmpty s && JsString.isEmpty acc)%bool.
Proof.
  revert acc. induction s as [| c r IH]; intros acc; [reflexivity |].
  cbn. rewrite IH. cbn. apply andb_false_r.
Qed.

Lemma trim_empty (s : string) :
  JsString.isEmpty (JsString.trim s) = allWhiteSpace s.
Proof.
  unfold JsString.trim, JsString.trimEnd, String.rev.
  rewrite isEmpty_rev_app, andb_true_r, trimStart_empty.
  rewrite allWhiteSpace_rev_app, andb_true_r. apply allWhiteSpace_trimStart.
Qed.

(** X18. The path check of [createBackup] rejects exactly the paths made of
    white space only, the empty one included; and the test for a secondary
    location is its opposite. *)
Theorem blank_is_all_white_space (s : string) :
  isBlank s = allWhiteSpace s /\ isConfigured s = negb (allWhiteSpace s).
Proof.
  unfold isBlank, isConfigured. rewrite trim_empty.
  destruct s as [| c r]; [split; reflexivity |]. cbn.
  split; reflexivity.
Qed.

Lemma append_assoc (a b c : string) : ((a ++ b) ++ c = a ++ (b ++ c))%string.
Proof.
  induction a as [| x a IH]; [reflexivity |].
  change (String x ((a ++ b) ++ c) = String x (a ++ (b ++ c)))%string.
  f_equal. exact IH.
Qed.

Lemma rev_app_acc (s acc : string) :
  String.rev_app s acc = (String.rev_app s "" ++ acc)%string.
Proof.
  revert acc. induction s as [| c r IH]; intros acc; [reflexivity |]. cbn.
  rewrite (IH (String c acc)), (IH (String c "")), append_assoc. reflexivity.
Qed.

Lemma rev_app_append (a b acc : string) :
  String.rev_app (a ++ b)%string acc = String.rev_app b (String.rev_app a acc).
Proof.
  revert acc. induction a as [| c r IH]; intros acc; [reflexivity |]. cbn. apply IH.
Qed.

Lemma prefix_append (p x y : string) :
  String.prefix p x = true -> String.prefix p (x ++ y)%string = true.
Proof.
  revert x. induction p as [| c p IH]; intros x Hp;
    [destruct (x ++ y)%string; reflexivity |].
  destruct x as [| d x]; [discriminate |].
  change (String.prefix (String c p) (String d (x ++ y)%string) = true).
  cbn in *. destruct (Ascii.ascii_dec c d); [apply IH; exact Hp | discriminate].
Qed.

Lemma endsWith_append (a b suffix : string) :
  JsString.endsWith b suffix = true ->
  JsString.endsWith (a ++ b)%string suffix = true.
Proof.
  unfold JsString.endsWith, String.rev. intros Hb.
  rewrite rev_app_append, (rev_app_acc b (String.rev_app a "")).
  apply prefix_append. exact Hb.
Qed.

(** X19. Every name [createBackup] writes an archive under ends in [.zip],
    whatever the time stamp and the name of the vault are: the retention
    pass counts each archive the plugin writes. *)
Theorem zipName_is_archive (h : host) (now : Z) : isZip (zipName h now).
Proof.
  unfold isZip, zipName. do 3 apply endsWith_append. reflexivity.
Qed.

(** ** What the archive holds of the metadata tree *)

Lemma visits_mono (files files' : listing) (base zipPath : string) (stats : node) :
  files ⊆ files' -> visits files base zipPath stats ->
  visits files' base zipPath stats.
Proof.
  intros Hsub Hv. destruct Hv as [files base fname stats Hin
                                 | files sub base fname zipPath stats Hin Hv].
  - apply visits_entry. apply Hsub. exact Hin.
  - eapply visits_inside; [apply Hsub; exact Hin | exact Hv].
Qed.

Lemma own_entries_added (zipPath : string) (stats : node) (e : ZipEntry) :
  e ∈ own_entries zipPath stats -> e ∈ (addEntryToZip stats zipPath ([], [])).1.
Proof.
  destruct stats as [[t |] r | [sub |] | [c |] [t |] |]; cbn [own_entries];
    intros He; try (apply elem_of_nil in He; contradiction); try exact He.
  rewrite addEntryToZip_directory, addEntriesToZip_zip.
  apply elem_of_app. left. exact He.
Qed.

(** Where the entries of a traversal come from. *)
Lemma entries_from_visits_aux (files : listing) :
  Forall (holds_below (fun n => forall zipPath e,
            e ∈ (addEntryToZip n zipPath ([], [])).1 ->
            e ∈ own_entries zipPath n
            \/ exists sub zp stats,
                 n = Directory (Some sub) /\ visits sub zipPath zp stats
                 /\ e ∈ own_entries zp stats)) files ->
  forall base e, e ∈ entries_of files base ->
    exists zp stats, visits files base zp stats /\ e ∈ own_entries zp stats.
Proof.
  induction 1 as [| [fname lstat] r Hx _ IH]; intros base e He.
  - apply elem_of_nil in He. contradiction.
  - rewrite entries_of_cons in He. apply elem_of_app in He as [He | He].
    + destruct lstat as [stats |]; [| apply elem_of_nil in He; contradiction].
      unfold holds_below in Hx. cbn in Hx.
      destruct (Hx _ _ He) as [Hown | (sub & zp & st & -> & Hv & Hown)].
      * exists (Path.join base fname), stats. split; [| exact Hown].
        apply visits_entry. left.
      * exists zp, st. split; [| exact Hown].
        eapply visits_inside; [left | exact Hv].
    + destruct (IH base e He) as (zp & st & Hv & Hown).
      exists zp, st. split; [| exact Hown].
      eapply visits_mono; [| exact Hv]. intros x Hx'. right. exact Hx'.
Qed.

Lemma entry_from_visits (n : node) (zipPath : string) (e : ZipEntry) :
  e ∈ (addEntryToZip n zipPath ([], [])).1 ->
  e ∈ own_entries zipPath n
  \/ exists sub zp stats,
       n = Directory (Some sub) /\ visits sub zipPath zp stats
       /\ e ∈ own_entries zp stats.
Proof.
  revert zipPath e. induction n using node_tree_ind; intros zipPath e He.
  - left. destruct readlink; exact He.
  - left. exact He.
  - rewrite addEntryToZip_directory, addEntriesToZip_zip in He.
    apply elem_of_app in He as [He | He]; [left; exact He | right].
    destruct (entries_from_visits_aux files H zipPath e He) as (zp & st & Hv & Hown).
    exists files, zp, st. auto.
  - left. destruct raw; [exact He |]. destruct text; exact He.
  - left. exact He.
Qed.

(** X20. The entries the traversal adds are exactly those of the entries it
    comes to: a regular file gives its bytes (or its text, re-encoded, when
    the bytes cannot be read), a directory its marker with a trailing
    separator and no data, a link its target; nothing else gets in. *)
Theorem metadata_entries_are_those_visited (w : walk) (files : listing)
    (zipBasePath : string) (e : ZipEntry) :
  e ∈ (addFolderToZip w (Some files) zipBasePath).1.1
  <-> e ∈ w.1
      \/ exists zipPath stats,
           visits files zipBasePath zipPath stats /\ e ∈ own_entries zipPath stats.
Proof.
  cbn. rewrite addEntriesToZip_zip, elem_of_app. split.
  - intros [Hw | He]; [left; exact Hw | right].
    apply entries_from_visits_aux; [| exact He].
    apply Forall_forall. intros [fname lstat] _. unfold holds_below. cbn.
    destruct lstat; [| exact I]. intros zp e'. apply entry_from_visits.
  - intros [Hw | (zp & st & Hv & Hown)]; [left; exact Hw | right].
    eapply visits_entries; [exact Hv |]. apply own_entries_added. exact Hown.
Qed.

(** X21. An entry that cannot be examined, a link whose target cannot be read
    and a sub-directory that cannot be listed each cost a warning and
    nothing else: the entries before and after are added as if it were not
    there, and the sub-directory still gets its marker. *)
Theorem unreachable_entries_are_skipped (before after : listing)
    (fname base : string) (referent : option node) :
  (entries_of (before ++ (fname, None) :: after) base
   = entries_of (before ++ after) base
   /\ lines_of (before ++ (fname, None) :: after) base
      = lines_of before base ++ SkippingProblematicPath :: lines_of after base)
  /\ (entries_of (before ++ (fname, Some (SymbolicLink None referent)) :: after) base
      = entries_of (before ++ after) base
      /\ lines_of (before ++ (fname, Some (SymbolicLink None referent)) :: after) base
         = lines_of before base ++ SkippingProblematicPath :: lines_of after base)
  /\ (entries_of (before ++ (fname, Some (Directory None)) :: after) base
      = entries_of before base
        ++ ((Path.join base fname ++ "/")%string, []) :: entries_of after base
      /\ lines_of (before ++ (fname, Some (Directory None)) :: after) base
         = lines_of before base
           ++ [ErrorAccessingFolder; SkippingProblematicPath] ++ lines_of after base).
Proof.
  rewrite !entries_of_app, !entries_of_cons, !lines_of_app, !lines_of_cons.
  repeat split.
Qed.
